(** * Cliquetis: a shallow embedding of [cliquetis.py]

    The development follows the layout of the Python module: the helper class
    [Cliquetis] and [NullBooleanVar], the [TabularData] model, the [Action]
    expander and runner, and the recursive walk of [TreeViewer.display_data].

    Python values are embedded as follows.
    - [str] is [string]; a character is an [ascii] code point.
    - [None], [bool], [int], [str], [list] and [dict] values of unknown type
      (what [json.loads] returns, what a widget yields) are [pyval].
    - a [dict] is an association list in insertion order, read with
      [dict_get] (first binding of the key).
    - the row lists that [TabularData] receives are mutable objects shared
      with the caller: they live in a heap and are named by a location.
    - an exception is a value of [exn]; a call that may raise returns a
      [result]. *)

From Stdlib Require Import ZArith Lia Ascii.
From stdpp Require Import base option list functions strings pretty.

Local Open Scope Z_scope.
Local Open Scope nat_scope.

(** ** Exceptions and the error monad *)

Inductive exn : Type :=
  | IndexError
  | KeyError
  | TypeError
  | ValueError
  | AttributeError
  | UnicodeDecodeError
  | JSONDecodeError
  | OSError.

Inductive result (A : Type) : Type :=
  | Ok (a : A)
  | Raise (e : exn).
Arguments Ok {A} a.
Arguments Raise {A} e.

Definition result_bind {A B : Type} (k : A → result B) (m : result A) : result B :=
  match m with
  | Ok a => k a
  | Raise e => Raise e
  end.

#[global] Instance result_ret : MRet result := λ A a, Ok a.
#[global] Instance result_mbind : MBind result := λ A B k m, result_bind k m.
#[global] Instance result_fmap : FMap result := λ A B f m, result_bind (λ a, Ok (f a)) m.

(** ** Python values *)

#[warnings="-register-all"]
Inductive pyval : Type :=
  | PNone
  | PBool (b : bool)
  | PInt (z : Z)
  | PStr (s : string)
  | PList (l : list pyval)
  | PDict (d : list (string * pyval)).

Definition is_None (v : pyval) : bool :=
  match v with PNone => true | _ => false end.

(** [v == s] for a string literal [s] *)
Definition eq_str (v : pyval) (s : string) : bool :=
  match v with PStr s' => bool_decide (s' = s) | _ => false end.

Definition isinstance_dict (v : pyval) : bool :=
  match v with PDict _ => true | _ => false end.

Definition isinstance_list (v : pyval) : bool :=
  match v with PList _ => true | _ => false end.

(** ** Dictionaries: association lists in insertion order *)

Section Dict.
Context {V : Type}.

Fixpoint dict_get (key : string) (d : list (string * V)) : option V :=
  match d with
  | [] => None
  | (k, v) :: rest => if decide (key = k) then Some v else dict_get key rest
  end.

(** [key in d] *)
Definition dict_in (key : string) (d : list (string * V)) : bool :=
  bool_decide (is_Some (dict_get key d)).

(** iteration order of [for key in d] *)
Definition dict_keys (d : list (string * V)) : list string := d.*1.

(** [d[key]] *)
Definition dict_getitem (d : list (string * V)) (key : string) : result V :=
  match dict_get key d with
  | Some v => Ok v
  | None => Raise KeyError
  end.

(** [d[key] = v]: an existing key keeps its place, a new key goes last. *)
Fixpoint dict_set (key : string) (v : V) (d : list (string * V))
    : list (string * V) :=
  match d with
  | [] => [(key, v)]
  | (k, v') :: rest =>
      if decide (key = k) then (k, v) :: rest else (k, v') :: dict_set key v rest
  end.
End Dict.

(** ** Strings *)

Module PyStr.

(** [str.isspace] on the code points below 256. *)
Definition isspace (c : ascii) : bool :=
  let n := Ascii.nat_of_ascii c in
  ((9 <=? n) && (n <=? 13)) || ((28 <=? n) && (n <=? 32))
  || (n =? 133) || (n =? 160).

Fixpoint lstrip (s : string) : string :=
  match s with
  | EmptyString => EmptyString
  | String c rest => if isspace c then lstrip rest else s
  end.

Fixpoint rstrip (s : string) : string :=
  match s with
  | EmptyString => EmptyString
  | String c rest =>
      match rstrip rest with
      | EmptyString => if isspace c then EmptyString else String c EmptyString
      | r => String c r
      end
  end.

(** [s.strip()] *)
Definition strip (s : string) : string := rstrip (lstrip s).

(** [s.replace(old, new)] for a non-empty [old]: a left-to-right scan over
    non-overlapping occurrences. [skip] counts the characters of a matched
    occurrence that are still to be dropped. *)
Fixpoint replace_scan (old new : string) (skip : nat) (s : string) : string :=
  match s with
  | EmptyString => EmptyString
  | String c rest =>
      match skip with
      | S k => replace_scan old new k rest
      | O =>
          if String.prefix old s
          then new +:+ replace_scan old new (String.length old - 1) rest
          else String c (replace_scan old new 0 rest)
      end
  end.

(** [s.replace("", new)]: [new] before every character and at the end. *)
Fixpoint intersperse (new : string) (s : string) : string :=
  match s with
  | EmptyString => new
  | String c rest => new +:+ String c (intersperse new rest)
  end.

Definition replace (s old new : string) : string :=
  match old with
  | EmptyString => intersperse new s
  | _ => replace_scan old new 0 s
  end.

End PyStr.

(** ** [class Cliquetis] and [class NullBooleanVar] *)

Module Cliquetis.

Definition NUMBER : Z := 0.
Definition STRING : Z := 1.

(** [Cliquetis.default(dictionary, key, default_value)] *)
Definition default {V : Type} (dictionary : list (string * V)) (key : string)
    (default_value : V) : V :=
  if dict_in key dictionary
  then match dict_get key dictionary with Some v => v | None => default_value end
  else default_value.

End Cliquetis.

(** The objects stored in [option['widget']]: the [ttk.Entry] of a text or
    file option and the [ttk.Combobox] of a list option hold the text typed or
    chosen; a boolean option holds a [NullBooleanVar], a Tk boolean variable
    together with the two configured [onvalue] and [offvalue]. *)
Inductive widget : Type :=
  | Entry (content : string)
  | Combobox (current : string)
  | NullBooleanVar (value : bool) (onvalue offvalue : pyval).

(** [NullBooleanVar.set(value)]: the variable takes the boolean. *)
Definition NullBooleanVar_set (w : widget) (value : bool) : widget :=
  match w with
  | NullBooleanVar _ onvalue offvalue => NullBooleanVar value onvalue offvalue
  | _ => w
  end.

(** [widget.get()] *)
Definition get (w : widget) : pyval :=
  match w with
  | Entry content => PStr content
  | Combobox current => PStr current
  | NullBooleanVar value _ _ => PBool value
  end.

(** [widget.get_null()]: only [NullBooleanVar] has the method. *)
Definition get_null (w : widget) : result pyval :=
  match w with
  | NullBooleanVar value onvalue offvalue =>
      Ok (if value then onvalue else offvalue)
  | _ => Raise AttributeError
  end.

(** [Cliquetis.get_value(value)] *)
Definition get_value (value : widget) : result pyval :=
  match get_null value with
  | Ok v => Ok v
  | Raise AttributeError => Ok (get value)
  | Raise e => Raise e
  end.

(** [create_widget_boolean]: the variable built from an option's ["true"],
    ["false"] and ["default"] entries. *)
Definition create_widget_boolean (true_value false_value : pyval)
    (default : bool) : widget :=
  NullBooleanVar_set (NullBooleanVar false true_value false_value) default.

(** ** [class TabularData] *)

(** A row (and the heading row) is a Python list of cells, a mutable object
    that the caller of [import_data] still holds: [loc] names the object and
    the heap gives its present content. *)
Abbreviation loc := nat (only parsing).

(** [self.data] is a list of rows, or after [group_by] a dict from a group
    name to the list of its rows. *)
Inductive table_data : Type :=
  | Flat (rows : list loc)
  | Grouped (groups : list (string * list loc)).

Record TabularData : Type := mkTabularData {
  headings : loc;
  data : table_data;
  width : nat;
  column_types : list Z;
  maximum_lengths : list nat;
}.

Record world : Type := mkWorld {
  heap : loc → list string;
  next_loc : loc;
  self : TabularData;
}.

(** State and exceptions: a method runs from a world to an outcome and the
    world it leaves, also when it raises. *)
Definition M (A : Type) : Type := world → result A * world.

Definition raise {A : Type} (e : exn) : M A := λ w, (Raise e, w).
Definition lift {A : Type} (r : result A) : M A := λ w, (r, w).
Definition M_bind {A B : Type} (k : A → M B) (m : M A) : M B :=
  λ w, match m w with
       | (Ok a, w') => k a w'
       | (Raise e, w') => (Raise e, w')
       end.

#[global] Instance M_ret : MRet M := λ A a w, (Ok a, w).
#[global] Instance M_mbind : MBind M := λ A B k m, M_bind k m.

Definition get_self : M TabularData := λ w, (Ok (self w), w).
Definition put_self (t : TabularData) : M unit :=
  λ w, (Ok tt, mkWorld (heap w) (next_loc w) t).
Definition deref (r : loc) : M (list string) := λ w, (Ok (heap w r), w).
Definition assign (r : loc) (cells : list string) : M unit :=
  λ w, (Ok tt, mkWorld (<[r := cells]> (heap w)) (next_loc w) (self w)).
(** a new list object *)
Definition alloc (cells : list string) : M loc :=
  λ w, (Ok (next_loc w),
        mkWorld (<[next_loc w := cells]> (heap w)) (S (next_loc w)) (self w)).

Definition set_headings (h : loc) : M unit :=
  t ← get_self;
  put_self (mkTabularData h (data t) (width t) (column_types t) (maximum_lengths t)).
Definition set_data (d : table_data) : M unit :=
  t ← get_self;
  put_self (mkTabularData (headings t) d (width t) (column_types t) (maximum_lengths t)).
Definition set_width (n : nat) : M unit :=
  t ← get_self;
  put_self (mkTabularData (headings t) (data t) n (column_types t) (maximum_lengths t)).
Definition set_column_types (l : list Z) : M unit :=
  t ← get_self;
  put_self (mkTabularData (headings t) (data t) (width t) l (maximum_lengths t)).
Definition set_maximum_lengths (l : list nat) : M unit :=
  t ← get_self;
  put_self (mkTabularData (headings t) (data t) (width t) (column_types t) l).

(** What a method returns: [None] (a bare [return]) or [self]. *)
Inductive returned : Type := ReturnNone | ReturnSelf.

(** [seq[i]] for a Python [int] index: a negative index counts from the end. *)
Definition py_index (len : nat) (i : Z) : option nat :=
  if (0 <=? i)%Z
  then (if (i <? Z.of_nat len)%Z then Some (Z.to_nat i) else None)
  else (if (0 <=? i + Z.of_nat len)%Z then Some (Z.to_nat (i + Z.of_nat len)) else None).

(** [TabularData()]: [__init__] with new empty lists. *)
Definition TabularData_init : M unit :=
  h ← alloc [];
  put_self (mkTabularData h (Flat []) 0 [] []).

(** [del seq[i]] on a list given by value. *)
Definition py_del {A : Type} (l : list A) (i : Z) : result (list A) :=
  match py_index (length l) i with
  | Some n => Ok (delete n l)
  | None => Raise IndexError
  end.

(** [seq[i]] *)
Definition py_getitem {A : Type} (l : list A) (i : Z) : result A :=
  match py_index (length l) i with
  | Some n => match l !! n with Some x => Ok x | None => Raise IndexError end
  | None => Raise IndexError
  end.

Section TabularData.

(** [float(value)] succeeds: the built-in parser is a parameter. *)
Variable parses_as_float : string → bool.

(** The loop [for column, value in enumerate(row)] of
    [_find_column_types], from index [column] on. *)
Fixpoint column_types_row (types : list Z) (column : nat) (row : list string)
    : result (list Z) :=
  match row with
  | [] => Ok types
  | value :: rest =>
      match types !! column with
      | None => Raise IndexError
      | Some ty =>
          if bool_decide (ty = Cliquetis.STRING)
             || bool_decide (PyStr.strip value = EmptyString)
          then column_types_row types (S column) rest
          else
            let ty' := if parses_as_float value
                       then Cliquetis.NUMBER else Cliquetis.STRING in
            column_types_row (<[column := ty']> types) (S column) rest
      end
  end.

(** The loop [for row in self.data] of [_find_column_types]. *)
Fixpoint column_types_rows (types all_string : list Z) (rows : list (list string))
    : result (list Z) :=
  match rows with
  | [] => Ok types
  | row :: rest =>
      if bool_decide (types = all_string) then Ok types
      else types' ← column_types_row types 0 row;
           column_types_rows types' all_string rest
  end.

(** [_find_column_types], on [self.width] and the rows of [self.data] as
    the heap gives them. *)
Definition _find_column_types (width : nat) (rows : list (list string))
    : result (list Z) :=
  let types := replicate width Cliquetis.NUMBER in
  let all_string := replicate width Cliquetis.STRING in
  column_types_rows types all_string rows.

(** The loop [for column, value in enumerate(row)] of
    [_find_maximum_length]. *)
Fixpoint maximum_length_row (maximum : list nat) (column : nat) (row : list string)
    : result (list nat) :=
  match row with
  | [] => Ok maximum
  | value :: rest =>
      match maximum !! column with
      | None => Raise IndexError
      | Some m =>
          if m <? String.length value
          then maximum_length_row (<[column := String.length value]> maximum)
                 (S column) rest
          else maximum_length_row maximum (S column) rest
      end
  end.

Fixpoint maximum_length_rows (maximum : list nat) (rows : list (list string))
    : result (list nat) :=
  match rows with
  | [] => Ok maximum
  | row :: rest =>
      maximum' ← maximum_length_row maximum 0 row;
      maximum_length_rows maximum' rest
  end.

(** [_find_maximum_length], on the cells of [self.headings] and the rows
    of [self.data]. *)
Definition _find_maximum_length (headings : list string)
    (rows : list (list string)) : result (list nat) :=
  maximum_length_rows (String.length <$> headings) rows.

(** [import_data(data)]: [data] is the list of row objects, heading first. *)
Definition import_data (data : list loc) : M returned :=
  if length data <? 2 then mret ReturnNone
  else
    match data with
    | [] => mret ReturnNone
    | data_0 :: data_1 =>
        set_headings data_0;;
        set_data (Flat data_1);;
        heading_cells ← deref data_0;
        set_width (length heading_cells);;
        t ← get_self;
        rows ← mapM deref data_1;
        types ← lift (_find_column_types (width t) rows);
        set_column_types types;;
        maximum ← lift (_find_maximum_length heading_cells rows);
        set_maximum_lengths maximum;;
        mret ReturnSelf
    end.

(** The body of [for row in self.data] in [group_by]. *)
Definition group_by_row (column : Z) (groups : list (string * list loc))
    (row : loc) : M (list (string * list loc)) :=
  cells ← deref row;
  group_name ← lift (py_getitem cells column);
  cells' ← lift (py_del cells column);
  assign row cells';;
  match dict_get group_name groups with
  | Some members => mret (dict_set group_name (members ++ [row]) groups)
  | None => mret (dict_set group_name [row] groups)
  end.

Fixpoint group_by_rows (column : Z) (groups : list (string * list loc))
    (rows : list loc) : M (list (string * list loc)) :=
  match rows with
  | [] => mret groups
  | row :: rest =>
      groups' ← group_by_row column groups row;
      group_by_rows column groups' rest
  end.

(** [group_by(column)]. When [self.data] is already a dict the loop runs
    over its keys, which are strings: [row[column]] reads a character or
    raises [IndexError], and [del row[column]] raises [TypeError]. *)
Definition group_by (column : Z) : M returned :=
  t ← get_self;
  groups ←
    match data t with
    | Flat rows => group_by_rows column [] rows
    | Grouped [] => mret []
    | Grouped ((name, _) :: _) =>
        match py_index (String.length name) column with
        | Some _ => raise TypeError
        | None => raise IndexError
        end
    end;
  heading_cells ← deref (headings t);
  heading_cells' ← lift (py_del heading_cells column);
  assign (headings t) heading_cells';;
  set_data (Grouped groups);;
  maximum ← lift (py_del (maximum_lengths t) column);
  set_maximum_lengths maximum;;
  types ← lift (py_del (column_types t) column);
  set_column_types types;;
  mret ReturnSelf.

End TabularData.

(** [has_tree] *)
Definition has_tree : M bool :=
  t ← get_self;
  mret (match data t with Grouped _ => true | Flat _ => false end).

(** What [insertable_items] yields: a parent key, and a group name or a row
    object. *)
Inductive payload : Type :=
  | GroupName (group : string)
  | Row (row : loc).

Definition item : Type := string * payload.

(** [for row in self.data[group]: yield (group, row)] *)
Fixpoint yield_rows (group : string) (rows : list loc) : list item :=
  match rows with
  | [] => []
  | row :: rest => (group, Row row) :: yield_rows group rest
  end.

(** [for group in self.data: yield ('', group); ...] over the keys still to
    visit. *)
Fixpoint yield_groups (groups : list (string * list loc)) (keys : list string)
    : result (list item) :=
  match keys with
  | [] => Ok []
  | group :: rest =>
      rows ← dict_getitem groups group;
      later ← yield_groups groups rest;
      Ok ((EmptyString, GroupName group) :: yield_rows group rows ++ later)
  end.

(** [for row in self.data: yield ('', row)] *)
Fixpoint yield_flat (rows : list loc) : list item :=
  match rows with
  | [] => []
  | row :: rest => (EmptyString, Row row) :: yield_flat rest
  end.

(** [insertable_items()]: the sequence a consumer of the generator receives
    when it runs it to the end. *)
Definition insertable_items : M (list item) :=
  t ← get_self;
  match data t with
  | Grouped groups => lift (yield_groups groups (dict_keys groups))
  | Flat rows => mret (yield_flat rows)
  end.

(** ** [class Action] *)

Abbreviation bytes := (list Byte.byte) (only parsing).

(** [f"{{{value_name}}}"] *)
Definition token (value_name : string) : string :=
  String "{" (value_name +:+ String "}" EmptyString).

(** [argument.replace(token, value)]: [value] must be a [str]. *)
Definition str_replace (argument old : string) (value : pyval) : result string :=
  match value with
  | PStr new => Ok (PyStr.replace argument old new)
  | _ => Raise TypeError
  end.

(** The first loop of [expand]: the argument is one whole token. *)
Fixpoint expand_whole (values : list (string * pyval)) (names : list string)
    (argument : string) : option (result pyval) :=
  match names with
  | [] => None
  | value_name :: rest =>
      if bool_decide (argument = token value_name)
      then Some (dict_getitem values value_name)
      else expand_whole values rest argument
  end.

(** The second loop of [expand]: every token is replaced in turn. *)
Fixpoint expand_tokens (values : list (string * pyval)) (names : list string)
    (argument : string) : result string :=
  match names with
  | [] => Ok argument
  | value_name :: rest =>
      value ← dict_getitem values value_name;
      let value := if is_None value then PStr EmptyString else value in
      argument' ← str_replace argument (token value_name) value;
      expand_tokens values rest argument'
  end.

(** [Action.expand(argument)] *)
Definition expand (values : list (string * pyval)) (argument : string)
    : result pyval :=
  match expand_whole values (dict_keys values) argument with
  | Some r => r
  | None => PStr <$> expand_tokens values (dict_keys values) argument
  end.

(** The list comprehension of [run]:
    [[v for v in map(self.expand, self.arguments) if v is not None]]. *)
Fixpoint expanded (values : list (string * pyval)) (arguments : list string)
    : result (list pyval) :=
  match arguments with
  | [] => Ok []
  | argument :: rest =>
      expanded_value ← expand values argument;
      later ← expanded values rest;
      Ok (if is_None expanded_value then later else expanded_value :: later)
  end.

(** What [run] returns: the [TabularData] it built (left in the world), the
    decoded JSON value, or the captured bytes. *)
Inductive run_value : Type :=
  | RunTable
  | RunJson (v : pyval)
  | RunRaw (stdout : bytes).

Section Action.

Variable parses_as_float : string → bool.
(** [bytes.decode('utf-8')], [str.splitlines()], [str.split(sep)] with the
    separator as configured, [json.loads] and [subprocess.run(argv,
    capture_output=True).stdout]. *)
Variable decode_utf8 : bytes → result string.
Variable splitlines : string → list string.
Variable split : string → pyval → result (list string).
Variable loads : bytes → result pyval.
Variable subprocess_run : list pyval → result bytes.

(** [self.group_by(group_by)] for a column taken from the configuration:
    an index must be an [int] ([bool] is one). *)
Definition group_by_value (column : pyval) : M returned :=
  match column with
  | PInt c => group_by c
  | PBool b => group_by (if b then 1 else 0)%Z
  | _ => raise TypeError
  end.

(** [import_raw_data(text, separator, group_by)] *)
Definition import_raw_data (text : bytes) (separator group_by : pyval)
    : M returned :=
  decoded ← lift (decode_utf8 text);
  rows ← lift (mapM (λ row, split row separator) (splitlines decoded));
  data ← mapM alloc rows;
  import_data parses_as_float data;;
  (if is_None group_by then mret ReturnNone else group_by_value group_by);;
  mret ReturnSelf.

(** [Action.run()] *)
Definition run (arguments : list string) (values configuration : list (string * pyval))
    : M run_value :=
  argv ← lift (expanded values arguments);
  stdout ← lift (subprocess_run argv);
  viewer ← lift (dict_getitem configuration "viewer");
  if eq_str viewer "table" then
    let separator :=
      if dict_in "separator" configuration
      then dict_getitem configuration "separator"
      else Ok (PStr (String "009" EmptyString)) in
    let group_by :=
      if dict_in "group-by" configuration
      then dict_getitem configuration "group-by"
      else Ok PNone in
    separator ← lift separator;
    group_by ← lift group_by;
    TabularData_init;;
    import_raw_data stdout separator group_by;;
    mret RunTable
  else
    viewer ← lift (dict_getitem configuration "viewer");
    if eq_str viewer "json" then
      v ← lift (loads stdout);
      mret (RunJson v)
    else mret (RunRaw stdout).

End Action.

(** ** [class TreeViewer] *)

(** The [ttk.Treeview] as [display_data] sees it: the items inserted so far,
    each at the end of its parent's children. An item is named by its rank of
    insertion; [Root] is the parent [''] . *)
Inductive iid : Type :=
  | Root
  | Item (n : nat).

Record node : Type := mkNode {
  node_parent : iid;
  node_text : option pyval;
  node_values : option (list pyval);
  node_open : option bool;
}.

(** [tree.insert(parent, END, text=..., values=..., open=...)] *)
Definition tree_insert (tree : list node) (n : node) : iid * list node :=
  (Item (length tree), tree ++ [n]).

(** [len(v)] of a dict or a list *)
Definition py_len (v : pyval) : nat :=
  match v with
  | PDict d => length d
  | PList l => length l
  | PStr s => String.length s
  | _ => 0
  end.

(** [f'{len(v)} item(s)'] *)
Definition items_label (v : pyval) : pyval :=
  PStr (pretty (py_len v) +:+ " item(s)").

Section TreeViewer.

Variable collapsed : bool.
Variable key_values : option (list string).

(** [has_key_values(data)] *)
Definition has_key_values (data : pyval) : bool :=
  match data, key_values with
  | PDict d, Some names => forallb (λ key, dict_in key d) names
  | _, _ => false
  end.

(** The block under [if self.has_key_values(data):] in [display_data], for
    the dict [d]: [None] when it falls through to the rest of the method. *)
Definition display_key_values (d : list (string * pyval)) (tree : list node)
    (parent : iid) : option (result (list node)) :=
  match key_values with
  | None => None
  | Some [] => Some (Raise IndexError)
  | Some (field_key :: field_values) =>
      let field_key_exists := dict_in field_key d in
      let field_values_exist :=
        forallb (λ field_value, dict_in field_value d) field_values in
      if field_key_exists && field_values_exist
      then Some (text ← dict_getitem d field_key;
                 values ← mapM (dict_getitem d) field_values;
                 Ok (tree_insert tree
                       (mkNode parent (Some text) (Some values) None)).2)
      else None
  end.

(** [for key in data:] of [display_data], over the bindings of the dict
    (a dict binds each key once, so [data[key]] is the bound value). *)
Definition display_dict
    (display_data : pyval → list node → iid → result (list node))
    (parent : iid) : list (string * pyval) → list node → result (list node) :=
  fix loop (bindings : list (string * pyval)) (tree : list node) :=
    match bindings with
    | [] => Ok tree
    | (key, value) :: rest =>
        if isinstance_dict value || isinstance_list value
        then
          let '(item, tree1) :=
            tree_insert tree
              (mkNode parent (Some (PStr key)) (Some [items_label value])
                 (Some (negb collapsed))) in
          tree2 ← display_data value tree1 item;
          loop rest tree2
        else
          loop rest
            (tree_insert tree
               (mkNode parent (Some (PStr key)) (Some [value]) None)).2
    end.

(** [for index, row in enumerate(data):] of [display_data] *)
Definition display_list
    (display_data : pyval → list node → iid → result (list node))
    (parent : iid) : list pyval → nat → list node → result (list node) :=
  fix loop (rows : list pyval) (index : nat) (tree : list node) :=
    match rows with
    | [] => Ok tree
    | row :: rest =>
        if has_key_values row
        then tree1 ← display_data row tree parent;
             loop rest (S index) tree1
        else if isinstance_dict row || isinstance_list row
        then
          let '(item, tree1) :=
            tree_insert tree
              (mkNode parent (Some (PInt (Z.of_nat index))) None
                 (Some (negb collapsed))) in
          tree2 ← display_data row tree1 item;
          loop rest (S index) tree2
        else
          loop rest (S index)
            (tree_insert tree
               (mkNode parent (Some (PInt (Z.of_nat index))) (Some [row]) None)).2
    end.

(** [display_data(data, tree, parent)]: the tree after the call. *)
Fixpoint display_data (data : pyval) (tree : list node) (parent : iid)
    {struct data} : result (list node) :=
  let shortcut :=
    if has_key_values data
    then match data with
         | PDict d => display_key_values d tree parent
         | _ => None
         end
    else None in
  match shortcut with
  | Some outcome => outcome
  | None =>
      match data with
      | PDict d => display_dict display_data parent d tree
      | PList l => display_list display_data parent l 0 tree
      | _ => Ok (tree_insert tree (mkNode parent None (Some [data]) None)).2
      end
  end.

End TreeViewer.

(** ** [Application.create_action] *)

(** The entry of [configuration['actions']] that [create_action] reads: the
    command, the options (each with the widget [create_widgets] stored in
    it) and the output configuration. *)
Record action_config : Type := mkActionConfig {
  command : list string;
  options : list (string * widget);
  output : list (string * pyval);
}.

(** An [Action] object. *)
Record Action : Type := mkAction {
  arguments : list string;
  values : list (string * pyval);
  configuration : list (string * pyval);
}.

(** The dict comprehension
    [{key: Cliquetis.get_value(options[key]['widget']) for key in options}],
    over the keys still to visit. *)
Fixpoint option_values (options : list (string * widget)) (keys : list string)
    (values : list (string * pyval)) : result (list (string * pyval)) :=
  match keys with
  | [] => Ok values
  | key :: rest =>
      option_widget ← dict_getitem options key;
      value ← get_value option_widget;
      option_values options rest (dict_set key value values)
  end.

(** [create_action]: the action it stores in [self.action]. *)
Definition create_action (action_config : action_config) : result Action :=
  values ← option_values (options action_config)
              (dict_keys (options action_config)) [];
  Ok (mkAction (command action_config) values (output action_config)).

(** ** [class TableViewer] *)

(** [Cliquetis.AVERAGE_CHAR_WIDTH] *)
Definition AVERAGE_CHAR_WIDTH : nat := 10.

(** The anchors [E] and [W] of [tkinter]. *)
Inductive anchor : Type := E | W.

(** The calls [insert_data] makes on the [ttk.Treeview]:
    [table.heading(name, text=text)],
    [table.column(name, width=width, anchor=anchor)],
    [table.insert('', END, iid=iid, text=text)] and
    [table.insert(parent, END, values=values)], where [values] is a row or,
    was a group name ever yielded under a parent, a string. *)
Inductive table_call : Type :=
  | Heading (name text : string)
  | Column (name : string) (width : nat) (anchor : anchor)
  | InsertGroup (iid text : string)
  | InsertRow (parent : string) (values : list string)
  | InsertText (parent : string) (values : string).

(** The loop [for column, name in enumerate(self.data.headings)] of
    [insert_data], from index [column] on: the calls it makes when it does
    not raise. *)
Fixpoint insert_headings (column_types : list Z) (maximum_lengths : list nat)
    (column : nat) (headings : list string) : result (list table_call) :=
  match headings with
  | [] => Ok []
  | name :: rest =>
      column_type ← match column_types !! column with
                    | Some ty => Ok ty
                    | None => Raise IndexError
                    end;
      column_length ← match maximum_lengths !! column with
                      | Some m => Ok m
                      | None => Raise IndexError
                      end;
      later ← insert_headings column_types maximum_lengths (S column) rest;
      Ok (Heading name name
          :: Column name (column_length * AVERAGE_CHAR_WIDTH)
               (if bool_decide (column_type = Cliquetis.NUMBER) then E else W)
          :: later)
  end.

(** The body of [for (parent, row) in self.data.insertable_items()]. *)
Definition insert_item (it : item) : M table_call :=
  match it with
  | (parent, GroupName group) =>
      if bool_decide (parent = EmptyString)
      then mret (InsertGroup group group)
      else mret (InsertText parent group)
  | (parent, Row row) =>
      cells ← deref row;
      mret (InsertRow parent cells)
  end.

(** [TableViewer.insert_data(table)], [self.data] being the model in the
    world: the calls made on [table]. *)
Definition insert_data : M (list table_call) :=
  t ← get_self;
  heading_cells ← deref (headings t);
  heading_calls ← lift (insert_headings (column_types t) (maximum_lengths t)
                          0 heading_cells);
  items ← insertable_items;
  item_calls ← mapM insert_item items;
  mret (heading_calls ++ item_calls).

(** ** Specification-side definitions

    The functions below are not code of the program: they state, in closed
    form, what the theorems compare the program with. *)

(** The text that stands for the binding of [name] in an interpolated
    argument: the bound string, and the empty string for [None]. *)
Definition bound_text (values : list (string * pyval)) (name : string) : string :=
  match dict_get name values with
  | Some (PStr s) => s
  | _ => EmptyString
  end.

(** Every token replaced by the text of its binding, one name after the
    other in the order of the mapping. *)
Definition substitute (values : list (string * pyval)) (argument : string) : string :=
  fold_left (λ text name, PyStr.replace text (token name) (bound_text values name))
    (dict_keys values) argument.

(** A bound value that an argument can carry as text. *)
Definition is_text (v : pyval) : Prop := v = PNone ∨ ∃ s, v = PStr s.

(** The distinct elements of a list, each at the place of its first
    occurrence. *)
Fixpoint first_seen (l : list string) : list string :=
  match l with
  | [] => []
  | x :: rest => x :: filter (λ y, y ≠ x) (first_seen rest)
  end.

(** What [insertable_items] is to yield for one group: the pair of the root
    and the group name, then one pair for each row of the group. *)
Definition group_block (groups : list (string * list loc)) (group : string)
    : list item :=
  (EmptyString, GroupName group)
  :: ((λ row, (group, Row row)) <$> default [] (dict_get group groups)).

(** The whole sequence: the blocks of the groups one after the other, or one
    pair of the root and the row for each row of a flat table. *)
Definition items_sequence (d : table_data) : list item :=
  match d with
  | Grouped groups => dict_keys groups ≫= group_block groups
  | Flat rows => (λ row, (EmptyString, Row row)) <$> rows
  end.

(** What one turn of the loop of [group_by] does to the groups: the row goes
    last in the group of its name, a new group going last in the dict. *)
Definition add_member (name : string) (row : loc)
    (groups : list (string * list loc)) : list (string * list loc) :=
  dict_set name (default [] (dict_get name groups) ++ [row]) groups.

(** The groups after the rows [rows], [key] giving the name of the group of
    a row. *)
Definition grouping (key : loc → string) (rows : list loc)
    (groups : list (string * list loc)) : list (string * list loc) :=
  fold_left (λ groups row, add_member (key row) row groups) rows groups.

(** The cell of a row at a column, as the heap has it. *)
Definition cell (w : world) (column : nat) (row : loc) : string :=
  default EmptyString (heap w row !! column).

(** A cell that forces its column to [STRING]: not blank, and not a float. *)
Definition forces_string (parses_as_float : string → bool) (value : string) : Prop :=
  PyStr.strip value ≠ EmptyString ∧ parses_as_float value = false.

(** The node of the key-values shortcut for the dict [d]. *)
Definition record_node (parent : iid) (text : pyval) (values : list pyval) : node :=
  mkNode parent (Some text) (Some values) None.

(** The world in which [import_data] has stored the rows and the width and
    is about to infer types and lengths, and the world it leaves. *)
Definition imported (w : world) (data_0 : loc) (data_1 : list loc)
    (types : list Z) (maximum : list nat) : world :=
  mkWorld (heap w) (next_loc w)
    (mkTabularData data_0 (Flat data_1) (length (heap w data_0)) types maximum).

(** The types [_find_column_types] works with. *)
Definition valid_types (types : list Z) : Prop :=
  Forall (λ ty, ty = Cliquetis.NUMBER ∨ ty = Cliquetis.STRING) types.

(** A world to run the examples in: four list objects, a heading row and
    three data rows, and a [TabularData] not yet initialised. *)
Definition sample_world : world :=
  mkWorld
    (λ r, match r with
          | 0 => ["name"; "size"]
          | 1 => ["a"; "10"]
          | 2 => ["b"; " "]
          | 3 => ["a"; "2.5"; "extra"]
          | _ => []
          end)
    4 (mkTabularData 0 (Flat []) 0 [] []).

Definition sample_float (s : string) : bool :=
  bool_decide (s = "10" ∨ s = "2.5").

(** [old] occurs in [s]. *)
Definition occurs (old s : string) : Prop :=
  ∃ before after, s = before +:+ old +:+ after.

(** What a widget holds for the command line: the text of an entry or of a
    combobox, the configured value of a checkbox for its state. *)
Definition widget_value (w : widget) : pyval :=
  match w with
  | Entry content => PStr content
  | Combobox current => PStr current
  | NullBooleanVar value onvalue offvalue => if value then onvalue else offvalue
  end.

(** An action configuration to run the examples on: a checkbox whose
    ["false"] value is [null], not ticked, and an empty text field. *)
Definition sample_action_config : action_config :=
  mkActionConfig ["ls"; "{all}"; "{dir}"]
    [("all", NullBooleanVar false (PStr "-a") PNone); ("dir", Entry EmptyString)]
    [("viewer", PStr "multiline")].


(** The number of keys and array elements in a JSON value, at all depths. *)
Fixpoint entries (v : pyval) : nat :=
  match v with
  | PDict d => list_sum ((λ binding, S (entries binding.2)) <$> d)
  | PList l => list_sum ((λ element, S (entries element)) <$> l)
  | _ => 0
  end.

(** The value is an object, or an array that holds one at some depth. *)
Fixpoint contains_dict (v : pyval) : bool :=
  match v with
  | PDict _ => true
  | PList l => existsb contains_dict l
  | _ => false
  end.

(** The two calls that declare a column: its heading, and its width and
    anchor from the maximum length and the type. *)
Definition column_calls (name : string) (ty : Z) (m : nat) : list table_call :=
  [Heading name name;
   Column name (m * AVERAGE_CHAR_WIDTH)
     (if bool_decide (ty = Cliquetis.NUMBER) then E else W)].

(** The calls that declare the columns of a table, heading after heading. *)
Fixpoint heading_calls (headings : list string) (types : list Z)
    (maximum : list nat) : list table_call :=
  match headings, types, maximum with
  | name :: headings', ty :: types', m :: maximum' =>
      column_calls name ty m ++ heading_calls headings' types' maximum'
  | _, _, _ => []
  end.


(** * Theorems *)

(** ** The monads *)

Lemma result_bind_Ok {A B : Type} (m : result A) (k : A → result B) (b : B) :
  m ≫= k = Ok b ↔ ∃ a, m = Ok a ∧ k a = Ok b.
Proof.
  destruct m as [a|e]; simpl; split.
  - intros H. by exists a.
  - by intros (a' & [= <-] & H).
  - intros [=].
  - by intros (a' & [=] & _).
Qed.

(** Runs the binds of the error monad whose first step is known. *)
Ltac run_result :=
  cbn [mbind result_mbind result_bind fmap result_fmap mret result_ret].

Lemma M_bind_run {A B : Type} (m : M A) (k : A → M B) (w : world) :
  (m ≫= k) w =
    match m w with
    | (Ok a, w') => k a w'
    | (Raise e, w') => (Raise e, w')
    end.
Proof. reflexivity. Qed.

Lemma mapM_deref (rows : list loc) (w : world) :
  mapM deref rows w = (Ok (heap w <$> rows), w).
Proof.
  induction rows as [|r rows IH]; [done|].
  cbn [mapM]. rewrite M_bind_run. cbn [deref].
  rewrite M_bind_run, IH. reflexivity.
Qed.

Lemma get_self_run (w : world) : get_self w = (Ok (self w), w).
Proof. reflexivity. Qed.

Lemma deref_run (r : loc) (w : world) : deref r w = (Ok (heap w r), w).
Proof. reflexivity. Qed.

Lemma assign_run (r : loc) (cells : list string) (w : world) :
  assign r cells w = (Ok tt, mkWorld (<[r := cells]> (heap w)) (next_loc w) (self w)).
Proof. reflexivity. Qed.

Lemma lift_run {A : Type} (r : result A) (w : world) : lift r w = (r, w).
Proof. reflexivity. Qed.

Lemma raise_run {A : Type} (e : exn) (w : world) : raise e w = (@Raise A e, w).
Proof. reflexivity. Qed.

Lemma mret_run {A : Type} (a : A) (w : world) : (mret a : M A) w = (Ok a, w).
Proof. reflexivity. Qed.

Lemma set_headings_run (h : loc) (w : world) :
  set_headings h w =
    (Ok tt, mkWorld (heap w) (next_loc w)
              (mkTabularData h (data (self w)) (width (self w))
                 (column_types (self w)) (maximum_lengths (self w)))).
Proof. reflexivity. Qed.

Lemma set_data_run (d : table_data) (w : world) :
  set_data d w =
    (Ok tt, mkWorld (heap w) (next_loc w)
              (mkTabularData (headings (self w)) d (width (self w))
                 (column_types (self w)) (maximum_lengths (self w)))).
Proof. reflexivity. Qed.

Lemma set_width_run (n : nat) (w : world) :
  set_width n w =
    (Ok tt, mkWorld (heap w) (next_loc w)
              (mkTabularData (headings (self w)) (data (self w)) n
                 (column_types (self w)) (maximum_lengths (self w)))).
Proof. reflexivity. Qed.

Lemma set_column_types_run (l : list Z) (w : world) :
  set_column_types l w =
    (Ok tt, mkWorld (heap w) (next_loc w)
              (mkTabularData (headings (self w)) (data (self w)) (width (self w))
                 l (maximum_lengths (self w)))).
Proof. reflexivity. Qed.

Lemma set_maximum_lengths_run (l : list nat) (w : world) :
  set_maximum_lengths l w =
    (Ok tt, mkWorld (heap w) (next_loc w)
              (mkTabularData (headings (self w)) (data (self w)) (width (self w))
                 (column_types (self w)) l)).
Proof. reflexivity. Qed.

Create Rewrite HintDb run_M.
#[global] Hint Rewrite @M_bind_run @get_self_run @deref_run @assign_run
  @lift_run @raise_run @mret_run @set_headings_run @set_data_run @set_width_run
  @set_column_types_run @set_maximum_lengths_run : run_M.

(** Runs the primitive steps at the head of a method applied to a world. *)
Ltac run_M :=
  repeat (autorewrite with run_M;
          cbn [self heap next_loc headings data width column_types
               maximum_lengths]).

(** ** [NullBooleanVar] and [Cliquetis.get_value] *)

(** C9, as the code has it: a boolean field resolves to the value configured
    for the state of its variable, one of two outcomes; it resolves to [None]
    exactly when that configured value is [None]; a text or list field
    resolves to the string it holds, never to [None]. *)
Theorem get_value_outcomes (value : bool) (onvalue offvalue : pyval)
    (content : string) :
  get_value (NullBooleanVar value onvalue offvalue)
    = Ok (if value then onvalue else offvalue)
  ∧ (get_value (NullBooleanVar value onvalue offvalue) = Ok PNone
     ↔ (if value then onvalue else offvalue) = PNone)
  ∧ get_value (Entry content) = Ok (PStr content)
  ∧ get_value (Combobox content) = Ok (PStr content)
  ∧ get_value (Entry content) ≠ Ok PNone
  ∧ get_value (Combobox content) ≠ Ok PNone.
Proof.
  repeat split; try done; cbn; congruence.
Qed.

(** C9, as stated, fails: with ["-v"] and ["-q"] configured, no state of the
    variable makes the field resolve to an outcome other than these two, and
    none makes it resolve to [None]. *)
Lemma get_value_no_third_outcome :
  ¬ ∃ value : bool,
      get_value (create_widget_boolean (PStr "-v") (PStr "-q") value) = Ok PNone
      ∨ (get_value (create_widget_boolean (PStr "-v") (PStr "-q") value) ≠ Ok (PStr "-v")
         ∧ get_value (create_widget_boolean (PStr "-v") (PStr "-q") value) ≠ Ok (PStr "-q")).
Proof. intros [[|] [H|[H1 H2]]]; cbn in *; congruence. Qed.

(** ** [TabularData.import_data] *)

Lemma TabularData_init_run (w : world) :
  TabularData_init w =
    (Ok tt, mkWorld (<[next_loc w := []]> (heap w)) (S (next_loc w))
              (mkTabularData (next_loc w) (Flat []) 0 [] [])).
Proof. reflexivity. Qed.

(** C7: with fewer than two rows [import_data] on a new [TabularData] returns
    without raising and changes nothing: the headings are the empty list, the
    width is zero, and there are no rows, column types or maximum lengths. *)
Theorem import_data_too_few_rows (parses_as_float : string → bool)
    (rows : list loc) (w : world) :
  length rows < 2 →
  let w0 := (TabularData_init w).2 in
  import_data parses_as_float rows w0 = (Ok ReturnNone, w0)
  ∧ heap w0 (headings (self w0)) = []
  ∧ width (self w0) = 0
  ∧ data (self w0) = Flat []
  ∧ column_types (self w0) = []
  ∧ maximum_lengths (self w0) = [].
Proof.
  intros Hlen w0. split.
  - unfold import_data. by destruct (Nat.ltb_spec (length rows) 2); [|lia].
  - subst w0. rewrite TabularData_init_run. cbn. by rewrite fn_lookup_insert.
Qed.

Lemma import_data_too_few_rows_witness :
  let w0 := (TabularData_init sample_world).2 in
  import_data sample_float [1] w0 = (Ok ReturnNone, w0)
  ∧ heap w0 (headings (self w0)) = []
  ∧ width (self w0) = 0
  ∧ data (self w0) = Flat []
  ∧ column_types (self w0) = []
  ∧ maximum_lengths (self w0) = [].
Proof.
  apply (import_data_too_few_rows sample_float [1] sample_world). simpl. lia.
Defined.

(** *** The two inference loops *)

Lemma maximum_length_row_step (maximum : list nat) (column : nat)
    (value : string) (row : list string) (m : nat) :
  maximum !! column = Some m →
  ∃ maximum1, length maximum1 = length maximum
    ∧ maximum_length_row maximum column (value :: row)
      = maximum_length_row maximum1 (S column) row.
Proof.
  intros Hm. cbn [maximum_length_row]. rewrite Hm.
  destruct (m <? String.length value); eexists; (split; [|reflexivity]);
    [apply length_insert|done].
Qed.

Lemma maximum_length_row_fits (row : list string) (maximum : list nat) (column : nat) :
  column + length row ≤ length maximum →
  ∃ maximum', maximum_length_row maximum column row = Ok maximum'
              ∧ length maximum' = length maximum.
Proof.
  revert maximum column.
  induction row as [|value row IH]; intros maximum column Hfit.
  { by exists maximum. }
  cbn [length] in Hfit.
  destruct (lookup_lt_is_Some_2 maximum column) as [m Hm]; [lia|].
  destruct (maximum_length_row_step _ _ value row _ Hm) as (maximum1 & Hlen & ->).
  destruct (IH maximum1 (S column)) as (maximum' & ? & ?); [lia|].
  exists maximum'. split; [done|congruence].
Qed.

Lemma maximum_length_row_overflow (row : list string) (maximum : list nat) (column : nat) :
  column ≤ length maximum →
  length maximum < column + length row →
  maximum_length_row maximum column row = Raise IndexError.
Proof.
  revert maximum column.
  induction row as [|value row IH]; intros maximum column Hcol Hwide.
  { cbn in Hwide. lia. }
  destruct (maximum !! column) as [m|] eqn:Hm.
  - destruct (maximum_length_row_step _ _ value row _ Hm) as (maximum1 & Hlen & ->).
    apply lookup_lt_Some in Hm.
    apply IH; cbn [length] in Hwide; lia.
  - cbn [maximum_length_row]. by rewrite Hm.
Qed.

Lemma maximum_length_rows_fit (rows : list (list string)) (maximum : list nat) :
  Forall (λ row, length row ≤ length maximum) rows →
  ∃ maximum', maximum_length_rows maximum rows = Ok maximum'
              ∧ length maximum' = length maximum.
Proof.
  revert maximum. induction rows as [|row rows IH]; intros maximum Hfit.
  { by exists maximum. }
  apply Forall_cons in Hfit as [Hrow Hrows].
  destruct (maximum_length_row_fits row maximum 0) as (maximum1 & Hrun & Hlen);
    [lia|].
  cbn [maximum_length_rows]. rewrite Hrun. cbn.
  destruct (IH maximum1) as (maximum' & ? & ?); [by rewrite Hlen|].
  exists maximum'. split; [done|congruence].
Qed.

Lemma maximum_length_rows_overflow (rows : list (list string)) (maximum : list nat) :
  Exists (λ row, length maximum < length row) rows →
  maximum_length_rows maximum rows = Raise IndexError.
Proof.
  revert maximum. induction rows as [|row rows IH]; intros maximum Hwide.
  { by apply Exists_nil in Hwide. }
  cbn [maximum_length_rows].
  destruct (decide (length row ≤ length maximum)) as [Hrow|Hrow].
  - destruct (maximum_length_row_fits row maximum 0) as (maximum1 & -> & Hlen);
      [lia|].
    cbn. apply IH. rewrite Hlen.
    apply Exists_cons in Hwide as [?|?]; [lia|done].
  - rewrite maximum_length_row_overflow by lia. done.
Qed.

Lemma import_data_run (parses_as_float : string → bool) (w : world)
    (data_0 row : loc) (rows : list loc) :
  import_data parses_as_float (data_0 :: row :: rows) w =
    match _find_column_types parses_as_float (length (heap w data_0))
            (heap w <$> row :: rows) with
    | Raise e =>
        (Raise e, imported w data_0 (row :: rows)
                    (column_types (self w)) (maximum_lengths (self w)))
    | Ok types =>
        match _find_maximum_length (heap w data_0) (heap w <$> row :: rows) with
        | Raise e =>
            (Raise e, imported w data_0 (row :: rows) types (maximum_lengths (self w)))
        | Ok maximum =>
            (Ok ReturnSelf, imported w data_0 (row :: rows) types maximum)
        end
    end.
Proof.
  unfold import_data. cbn [length Nat.ltb Nat.leb].
  run_M. rewrite mapM_deref. run_M.
  destruct (_find_column_types _ _ _) as [types|e]; [|done].
  run_M. destruct (_find_maximum_length _ _) as [maximum|e]; done.
Qed.

Section ColumnTypes.

Variable parses_as_float : string → bool.

Lemma column_types_row_fits (row : list string) (types : list Z) (column : nat) :
  column + length row ≤ length types →
  ∃ types', column_types_row parses_as_float types column row = Ok types'.
Proof.
  revert types column.
  induction row as [|value row IH]; intros types column Hfit.
  { by exists types. }
  cbn [length] in Hfit. cbn [column_types_row].
  destruct (lookup_lt_is_Some_2 types column) as [ty ->]; [lia|].
  destruct (_ || _); apply IH; rewrite ?length_insert; lia.
Qed.

Lemma column_types_row_outcome (row : list string) (types : list Z) (column : nat) :
  (∃ types', column_types_row parses_as_float types column row = Ok types'
             ∧ length types' = length types)
  ∨ column_types_row parses_as_float types column row = Raise IndexError.
Proof.
  revert types column.
  induction row as [|value row IH]; intros types column.
  { left. by exists types. }
  cbn [column_types_row]. destruct (types !! column) as [ty|]; [|by right].
  destruct (_ || _); [apply IH|].
  destruct (IH (<[column := if parses_as_float value
                            then Cliquetis.NUMBER else Cliquetis.STRING]> types)
              (S column)) as [(types' & ? & Hlen)|?]; [left|by right].
  exists types'. by rewrite length_insert in Hlen.
Qed.

Lemma column_types_rows_outcome (rows : list (list string)) (types all_string : list Z) :
  (∃ types', column_types_rows parses_as_float types all_string rows = Ok types'
             ∧ length types' = length types)
  ∨ column_types_rows parses_as_float types all_string rows = Raise IndexError.
Proof.
  revert types. induction rows as [|row rows IH]; intros types.
  { left. by exists types. }
  cbn [column_types_rows]. case_bool_decide; [left; by exists types|].
  destruct (column_types_row_outcome row types 0) as [(types1 & -> & Hlen)| ->];
    [|by right].
  cbn. destruct (IH types1) as [(types' & ? & ?)|?]; [left|by right].
  exists types'. split; [done|congruence].
Qed.

Lemma column_types_rows_fit (rows : list (list string)) (types all_string : list Z) :
  Forall (λ row, length row ≤ length types) rows →
  ∃ types', column_types_rows parses_as_float types all_string rows = Ok types'.
Proof.
  revert types. induction rows as [|row rows IH]; intros types Hfit.
  { by exists types. }
  apply Forall_cons in Hfit as [Hrow Hrows].
  cbn [column_types_rows]. case_bool_decide; [by exists types|].
  destruct (column_types_row_fits row types 0) as [types1 Hrun]; [lia|].
  destruct (column_types_row_outcome row types 0) as [(? & ? & Hlen)|?];
    [|congruence].
  rewrite Hrun. cbn. apply IH. replace (length types1) with (length types); [done|].
  congruence.
Qed.

End ColumnTypes.

Lemma import_data_fits_succeeds (parses_as_float : string → bool) (w : world)
    (data_0 row : loc) (rows : list loc) :
  Forall (λ r, length (heap w r) ≤ length (heap w data_0)) (row :: rows) →
  ∃ types maximum,
    import_data parses_as_float (data_0 :: row :: rows) w
      = (Ok ReturnSelf, imported w data_0 (row :: rows) types maximum)
    ∧ length types = length (heap w data_0)
    ∧ length maximum = length (heap w data_0).
Proof.
  intros Hfit. rewrite import_data_run. unfold _find_column_types.
  destruct (column_types_rows_fit parses_as_float (heap w <$> row :: rows)
              (replicate (length (heap w data_0)) Cliquetis.NUMBER)
              (replicate (length (heap w data_0)) Cliquetis.STRING))
    as [types Htypes].
  { rewrite length_replicate. by apply Forall_fmap. }
  destruct (column_types_rows_outcome parses_as_float (heap w <$> row :: rows)
              (replicate (length (heap w data_0)) Cliquetis.NUMBER)
              (replicate (length (heap w data_0)) Cliquetis.STRING))
    as [(types' & Htypes' & Hlen)|?]; [|congruence].
  rewrite Htypes. unfold _find_maximum_length.
  destruct (maximum_length_rows_fit (heap w <$> row :: rows)
              (String.length <$> heap w data_0)) as (maximum & -> & Hmax).
  { rewrite length_fmap. by apply Forall_fmap. }
  exists types, maximum. split; [done|].
  rewrite length_fmap in Hmax. rewrite length_replicate in Hlen.
  split; congruence.
Qed.

(** C10: when a data row has more cells than the heading row, [import_data]
    raises [IndexError]: the inference of the column types or, if that one
    stopped early, the inference of the maximum lengths indexes past the
    per-column list. So [import_data] returns normally only when no data row
    is wider than the heading row. *)
Theorem import_data_wide_row_raises (parses_as_float : string → bool)
    (w : world) (data_0 : loc) (rows : list loc) (row : loc) :
  row ∈ rows →
  length (heap w data_0) < length (heap w row) →
  ∃ w', import_data parses_as_float (data_0 :: rows) w = (Raise IndexError, w').
Proof.
  intros Hin Hwide. destruct rows as [|r rows]; [by apply elem_of_nil in Hin|].
  rewrite import_data_run. unfold _find_column_types.
  destruct (column_types_rows_outcome parses_as_float (heap w <$> r :: rows)
              (replicate (length (heap w data_0)) Cliquetis.NUMBER)
              (replicate (length (heap w data_0)) Cliquetis.STRING))
    as [(types & -> & _)| ->]; [|by eexists].
  unfold _find_maximum_length. rewrite maximum_length_rows_overflow; [by eexists|].
  apply Exists_exists. exists (heap w row). split.
  - apply list_elem_of_fmap. by exists row.
  - by rewrite length_fmap.
Qed.

Lemma import_data_wide_row_raises_witness :
  ∃ w', import_data sample_float [0; 1; 2; 3] sample_world = (Raise IndexError, w').
Proof.
  apply (import_data_wide_row_raises sample_float sample_world 0 [1; 2; 3] 3).
  - repeat constructor.
  - simpl. lia.
Defined.

(** ** [TabularData._find_column_types] *)

Section ColumnTypesSpec.

Variable parses_as_float : string → bool.

Lemma valid_types_insert (types : list Z) (column : nat) (value : string) :
  valid_types types →
  valid_types (<[column := if parses_as_float value
                           then Cliquetis.NUMBER else Cliquetis.STRING]> types).
Proof.
  intros Hvalid. destruct (decide (column < length types)) as [Hlt|Hge].
  - apply Forall_insert; [done|]. destruct (parses_as_float value); auto.
  - by rewrite list_insert_ge by lia.
Qed.

Lemma lookup_cons_later (value : string) (row : list string) (c column : nat) :
  column < c → (value :: row) !! (c - column) = row !! (c - S column).
Proof. intros Hlt. by replace (c - column) with (S (c - S column)) by lia. Qed.

(** One row: a column is [STRING] afterwards when it was before, or when
    the row has a forcing cell in it. *)
Lemma column_types_row_spec (row : list string) (types : list Z) (column : nat)
    (types' : list Z) :
  valid_types types →
  column_types_row parses_as_float types column row = Ok types' →
  valid_types types' ∧ length types' = length types
  ∧ ∀ c, types' !! c = Some Cliquetis.STRING ↔
         types !! c = Some Cliquetis.STRING
         ∨ (column ≤ c ∧ ∃ value, row !! (c - column) = Some value
                                  ∧ forces_string parses_as_float value).
Proof.
  revert types column.
  induction row as [|value row IH]; intros types column Hvalid Hrun.
  { injection Hrun as <-. repeat split; auto.
    intros [?|(_ & value & Hnil & _)]; [done|]. by rewrite lookup_nil in Hnil. }
  cbn [column_types_row] in Hrun.
  destruct (types !! column) as [ty|] eqn:Hty; [|done].
  destruct (bool_decide (ty = Cliquetis.STRING)
            || bool_decide (PyStr.strip value = EmptyString)) eqn:Hskip.
  - destruct (IH _ _ Hvalid Hrun) as (Hvalid' & Hlen & Hiff).
    repeat split; [done..| |]; rewrite Hiff.
    + intros [?|(Hle & v & Hv & Hforce)]; [by left|right].
      split; [lia|]. exists v. by rewrite (lookup_cons_later value) by lia.
    + intros [?|(Hle & v & Hv & Hforce)]; [by left|].
      destruct (decide (c = column)) as [->|Hne].
      * rewrite Nat.sub_diag in Hv. injection Hv as ->.
        apply orb_true_iff in Hskip as [Hs|Hs]; apply bool_decide_eq_true in Hs.
        -- left. by rewrite Hty, Hs.
        -- by destruct Hforce.
      * right. split; [lia|]. exists v. by rewrite <- (lookup_cons_later value) by lia.
  - apply orb_false_iff in Hskip as [Hty' Hblank].
    apply bool_decide_eq_false in Hty', Hblank.
    destruct (IH _ _ (valid_types_insert types column value Hvalid) Hrun)
      as (Hvalid' & Hlen & Hiff).
    rewrite length_insert in Hlen.
    apply lookup_lt_Some in Hty as Hlt.
    repeat split; [done..| |]; rewrite Hiff.
    + intros [Hc|(Hle & v & Hv & Hforce)].
      * destruct (decide (c = column)) as [->|Hne].
        -- rewrite list_lookup_insert_eq in Hc by done. right. split; [done|].
           exists value. rewrite Nat.sub_diag. split; [done|]. split; [done|].
           by destruct (parses_as_float value).
        -- rewrite list_lookup_insert_ne in Hc by done. by left.
      * right. split; [lia|]. exists v. by rewrite (lookup_cons_later value) by lia.
    + intros [Hc|(Hle & v & Hv & Hforce)].
      * left. rewrite list_lookup_insert_ne; [done|]. intros ->. congruence.
      * destruct (decide (c = column)) as [->|Hne].
        -- left. rewrite Nat.sub_diag in Hv. injection Hv as ->.
           rewrite list_lookup_insert_eq by done.
           destruct Hforce as [_ ->]. done.
        -- right. split; [lia|]. exists v. by rewrite <- (lookup_cons_later value) by lia.
Qed.

(** All rows: a column is [STRING] at the end when it was at the start, or
    when some row has a forcing cell in it. The early [break] changes
    nothing, every column being [STRING] already. *)
Lemma column_types_rows_spec (rows : list (list string)) (types types' : list Z) :
  valid_types types →
  column_types_rows parses_as_float types
    (replicate (length types) Cliquetis.STRING) rows = Ok types' →
  valid_types types' ∧ length types' = length types
  ∧ ∀ c, c < length types →
         (types' !! c = Some Cliquetis.STRING ↔
          types !! c = Some Cliquetis.STRING
          ∨ ∃ row value, row ∈ rows ∧ row !! c = Some value
                         ∧ forces_string parses_as_float value).
Proof.
  revert types.
  induction rows as [|row rows IH]; intros types Hvalid Hrun.
  { injection Hrun as <-. repeat split; auto.
    intros [?|(row & _ & Hin & _)]; [done|]. by apply elem_of_nil in Hin. }
  cbn [column_types_rows] in Hrun. case_bool_decide as Hall.
  { injection Hrun as <-. repeat split; auto.
    intros _. rewrite Hall at 1. by apply lookup_replicate_2. }
  destruct (column_types_row parses_as_float types 0 row) as [types1|] eqn:Hrow;
    [|done].
  cbn in Hrun.
  destruct (column_types_row_spec _ _ _ _ Hvalid Hrow) as (Hvalid1 & Hlen1 & Hiff1).
  rewrite <- Hlen1 in Hrun.
  destruct (IH _ Hvalid1 Hrun) as (Hvalid' & Hlen' & Hiff').
  repeat split; [done|congruence|..]; rewrite Hiff' by lia; rewrite Hiff1.
  - intros [[?|(_ & v & Hv & Hforce)]|(r & v & Hin & Hv & Hforce)].
    + by left.
    + right. exists row, v. rewrite Nat.sub_0_r in Hv.
      split; [apply list_elem_of_here|done].
    + right. exists r, v. split; [by apply list_elem_of_further|done].
  - intros [?|(r & v & Hin & Hv & Hforce)]; [by left; left|].
    apply elem_of_cons in Hin as [->|Hin].
    + left. right. split; [lia|]. exists v. by rewrite Nat.sub_0_r.
    + right. by exists r, v.
Qed.

End ColumnTypesSpec.

Lemma import_data_ReturnSelf (parses_as_float : string → bool) (rows : list loc)
    (w w' : world) :
  import_data parses_as_float rows w = (Ok ReturnSelf, w') →
  ∃ data_0 row data_1 types maximum,
    rows = data_0 :: row :: data_1
    ∧ w' = imported w data_0 (row :: data_1) types maximum
    ∧ _find_column_types parses_as_float (length (heap w data_0))
        (heap w <$> row :: data_1) = Ok types
    ∧ _find_maximum_length (heap w data_0) (heap w <$> row :: data_1) = Ok maximum.
Proof.
  destruct rows as [|data_0 [|row data_1]];
    [intros Hrun; by cbv in Hrun..|].
  rewrite import_data_run.
  destruct (_find_column_types _ _ _) as [types|] eqn:Htypes; [|done].
  destruct (_find_maximum_length _ _) as [maximum|] eqn:Hmaximum; [|done].
  intros [= <-]. by exists data_0, row, data_1, types, maximum.
Qed.

(** C5: in an imported dataset the type of a column is [STRING] exactly when
    some data row has, in that column, a cell that is not blank once stripped
    and that [float] rejects; it is [NUMBER] exactly when every cell of the
    column is blank or parses as a float. No other type occurs, so a blank
    cell never decides a type. *)
Theorem column_type_inference (parses_as_float : string → bool)
    (rows : list loc) (w w' : world) (c : nat) :
  import_data parses_as_float rows w = (Ok ReturnSelf, w') →
  c < width (self w') →
  ∃ ty, column_types (self w') !! c = Some ty
    ∧ (ty = Cliquetis.STRING ∨ ty = Cliquetis.NUMBER)
    ∧ (ty = Cliquetis.STRING ↔
       ∃ row value, row ∈ tail rows ∧ heap w row !! c = Some value
                    ∧ PyStr.strip value ≠ EmptyString
                    ∧ parses_as_float value = false)
    ∧ (ty = Cliquetis.NUMBER ↔
       ∀ row value, row ∈ tail rows → heap w row !! c = Some value →
                    PyStr.strip value = EmptyString
                    ∨ parses_as_float value = true).
Proof.
  intros (data_0 & row & data_1 & types & maximum & -> & -> & Htypes & _)
    %import_data_ReturnSelf Hc.
  cbn [imported self width column_types tail] in *.
  set (n := length (heap w data_0)) in *.
  unfold _find_column_types in Htypes.
  assert (valid_types (replicate n Cliquetis.NUMBER)) as Hvalid0.
  { apply Forall_replicate. by left. }
  rewrite <- (length_replicate n Cliquetis.NUMBER) in Htypes at 2.
  destruct (column_types_rows_spec _ _ _ _ Hvalid0 Htypes)
    as (Hvalid & Hlen & Hiff).
  rewrite length_replicate in Hlen, Hiff.
  destruct (lookup_lt_is_Some_2 types c) as [ty Hty]; [lia|].
  assert (ty = Cliquetis.STRING ↔
          ∃ r value, r ∈ row :: data_1 ∧ heap w r !! c = Some value
                     ∧ PyStr.strip value ≠ EmptyString
                     ∧ parses_as_float value = false) as Hstring.
  { specialize (Hiff c Hc). rewrite Hty in Hiff. split.
    - intros ->. destruct Hiff as [[Hinit|(cells & v & Hin & Hv & Hf1 & Hf2)] _];
        [done| |].
      + apply lookup_replicate in Hinit as [[=] _].
      + apply list_elem_of_fmap in Hin as (r & -> & Hin). by exists r, v.
    - intros (r & v & Hin & Hv & Hforce).
      destruct Hiff as [_ Hback]. enough (Some ty = Some Cliquetis.STRING) by congruence.
      apply Hback. right. exists (heap w r), v. split; [|done].
      apply list_elem_of_fmap. by exists r. }
  exists ty. split; [done|].
  assert (ty = Cliquetis.NUMBER ∨ ty = Cliquetis.STRING) as Hty01.
  { eapply (Forall_lookup_1 _ _ _ _ Hvalid Hty). }
  split; [tauto|]. split; [done|]. split.
  - intros -> r v Hin Hv.
    destruct (decide (PyStr.strip v = EmptyString)) as [|Hblank]; [by left|right].
    destruct (parses_as_float v) eqn:Hpf; [done|].
    assert (Cliquetis.NUMBER = Cliquetis.STRING) as [=].
    apply Hstring. by exists r, v.
  - intros Hall. destruct Hty01 as [?| ->]; [done|].
    destruct Hstring as [(r & v & Hin & Hv & Hblank & Hpf) _]; [done|].
    destruct (Hall r v Hin Hv); congruence.
Qed.

Lemma column_type_inference_witness :
  ∃ ty, column_types (self (import_data sample_float [0; 1; 2] sample_world).2) !! 0
          = Some ty
    ∧ (ty = Cliquetis.STRING ∨ ty = Cliquetis.NUMBER)
    ∧ (ty = Cliquetis.STRING ↔
       ∃ row value, row ∈ tail [0; 1; 2] ∧ heap sample_world row !! 0 = Some value
                    ∧ PyStr.strip value ≠ EmptyString
                    ∧ sample_float value = false)
    ∧ (ty = Cliquetis.NUMBER ↔
       ∀ row value, row ∈ tail [0; 1; 2] → heap sample_world row !! 0 = Some value →
                    PyStr.strip value = EmptyString
                    ∨ sample_float value = true).
Proof.
  apply (column_type_inference sample_float [0; 1; 2] sample_world
           (import_data sample_float [0; 1; 2] sample_world).2 0).
  - reflexivity.
  - vm_compute. lia.
Defined.

(** ** [TabularData.insertable_items] *)

Lemma dict_get_is_Some {V : Type} (d : list (string * V)) (key : string) :
  is_Some (dict_get key d) ↔ key ∈ dict_keys d.
Proof.
  unfold dict_keys. induction d as [|[k v] d IH]; cbn.
  - split; [by intros [? ?]|by intros ?%elem_of_nil].
  - rewrite elem_of_cons. case_decide as Hkey.
    + split; [by left|by eexists].
    + rewrite IH. split; [by right|by intros [?|?]].
Qed.

Lemma yield_rows_fmap (group : string) (rows : list loc) :
  yield_rows group rows = (λ row, (group, Row row)) <$> rows.
Proof. induction rows as [|row rows IH]; [done|]. cbn. by rewrite IH. Qed.

Lemma yield_flat_fmap (rows : list loc) :
  yield_flat rows = (λ row, (EmptyString, Row row)) <$> rows.
Proof. induction rows as [|row rows IH]; [done|]. cbn. by rewrite IH. Qed.

Lemma yield_groups_blocks (groups : list (string * list loc)) (keys : list string) :
  keys ⊆ dict_keys groups →
  yield_groups groups keys = Ok (keys ≫= group_block groups).
Proof.
  induction keys as [|group keys IH]; intros Hsub; [done|].
  cbn [yield_groups]. unfold dict_getitem, group_block at 1.
  destruct (proj2 (dict_get_is_Some groups group)) as [rows Hrows].
  { apply Hsub. constructor. }
  rewrite IH by (intros k Hk; apply Hsub; by constructor).
  cbn [mbind list_bind]. rewrite Hrows. cbn. by rewrite yield_rows_fmap.
Qed.

Lemma insertable_items_run (w : world) :
  insertable_items w = (Ok (items_sequence (data (self w))), w).
Proof.
  unfold insertable_items. run_M. destruct (data (self w)) as [rows|groups].
  - run_M. cbn. by rewrite yield_flat_fmap.
  - run_M. by rewrite yield_groups_blocks.
Qed.

(** C6: [insertable_items] yields a finite sequence and leaves the model as
    it was, so that a second run yields the same sequence from its start. For
    a grouped model the sequence is, group after group in the order of the
    dict, the pair of [''] and the group name and right after it one pair of
    the group name and the row for each row of the group; for a flat model it
    is one pair of [''] and the row for each row, in order. *)
Theorem insertable_items_sequence (w : world) :
  insertable_items w = (Ok (items_sequence (data (self w))), w)
  ∧ (insertable_items ≫= λ first,
       insertable_items ≫= λ second, mret (first, second)) w
    = (Ok (items_sequence (data (self w)), items_sequence (data (self w))), w).
Proof.
  split; [apply insertable_items_run|].
  rewrite M_bind_run, insertable_items_run, M_bind_run, insertable_items_run.
  reflexivity.
Qed.

(** ** [Action.expand] and [Action.run] *)

Lemma append_snoc_inj (a b : string) (c : ascii) :
  a +:+ String c EmptyString = b +:+ String c EmptyString → a = b.
Proof.
  revert b. induction a as [|x a IH]; intros [|y b] Heq; cbn in Heq.
  - done.
  - injection Heq as _ Heq. by destruct b.
  - injection Heq as _ Heq. by destruct a.
  - injection Heq as -> Heq. f_equal. by apply IH.
Qed.

Lemma token_inj (a b : string) : token a = token b → a = b.
Proof. unfold token. intros [= Heq]. by apply append_snoc_inj in Heq. Qed.

Lemma dict_get_elem_of {V : Type} (d : list (string * V)) (key : string) (v : V) :
  dict_get key d = Some v → (key, v) ∈ d.
Proof.
  induction d as [|[k v'] d IH]; cbn; [done|]. case_decide as Hkey.
  - intros [= ->]. subst. constructor.
  - intros ?. constructor. by apply IH.
Qed.

Lemma expand_whole_token (values : list (string * pyval)) (names : list string)
    (x : string) :
  x ∈ names →
  expand_whole values names (token x) = Some (dict_getitem values x).
Proof.
  induction names as [|name names IH]; intros Hin; [by apply elem_of_nil in Hin|].
  cbn [expand_whole]. case_bool_decide as Htoken.
  - by apply token_inj in Htoken as ->.
  - apply IH. apply elem_of_cons in Hin as [->|?]; done.
Qed.

Lemma expand_whole_other (values : list (string * pyval)) (names : list string)
    (argument : string) :
  (∀ name, name ∈ names → argument ≠ token name) →
  expand_whole values names argument = None.
Proof.
  induction names as [|name names IH]; intros Hne; [done|].
  cbn [expand_whole]. rewrite bool_decide_eq_false_2.
  - apply IH. intros n Hn. apply Hne. by constructor.
  - apply Hne. constructor.
Qed.

Lemma expanded_app (values : list (string * pyval)) (before after : list string) :
  expanded values (before ++ after) =
    (head ← expanded values before;
     tail ← expanded values after;
     Ok (head ++ tail)).
Proof.
  induction before as [|argument before IH]; cbn [app expanded].
  { cbn. by destruct (expanded values after). }
  destruct (expand values argument) as [v|e]; [|done]. cbn.
  rewrite IH. destruct (expanded values before) as [head|e]; [|done]. cbn.
  destruct (expanded values after) as [tail|e]; [|done]. cbn.
  by destruct (is_None v).
Qed.

(** C1: a template that is exactly the token of a bound name expands to the
    bound value itself, whatever its type; in the argument vector of [run] an
    expansion that is [None] is left out and every other one is kept, in the
    order of the templates. *)
Theorem expand_token_raw_and_filtered (values : list (string * pyval))
    (x : string) (v : pyval) (before after arguments : list string)
    (results : list pyval) :
  dict_get x values = Some v →
  Forall2 (λ argument result, expand values argument = Ok result)
    arguments results →
  expand values (token x) = Ok v
  ∧ expanded values arguments = Ok (filter (λ r, is_None r = false) results)
  ∧ expanded values (before ++ token x :: after) =
      (head ← expanded values before;
       tail ← expanded values after;
       Ok (head ++ (if is_None v then [] else [v]) ++ tail)).
Proof.
  intros Hx Hall.
  assert (expand values (token x) = Ok v) as Hexpand.
  { unfold expand. rewrite expand_whole_token.
    - unfold dict_getitem. by rewrite Hx.
    - apply dict_get_is_Some. by rewrite Hx. }
  split; [done|]. split.
  - induction Hall as [|argument result arguments results Hhead _ IH]; [done|].
    cbn [expanded]. rewrite Hhead, IH, filter_cons.
    run_result. destruct (is_None result); by case_decide.
  - rewrite expanded_app. cbn [expanded]. rewrite Hexpand. cbn.
    destruct (expanded values before) as [head|e]; [|done]. cbn.
    destruct (expanded values after) as [tail|e]; [|done]. cbn.
    by destruct (is_None v).
Qed.

Lemma expand_token_raw_and_filtered_witness :
  expand [("flag", PNone); ("level", PInt 3)] (token "flag") = Ok PNone
  ∧ expanded [("flag", PNone); ("level", PInt 3)] ["{level}"; "{flag}"]
    = Ok (filter (λ r, is_None r = false) [PInt 3; PNone])
  ∧ expanded [("flag", PNone); ("level", PInt 3)] (["{level}"] ++ token "flag" :: ["ls"]) =
      (head ← expanded [("flag", PNone); ("level", PInt 3)] ["{level}"];
       tail ← expanded [("flag", PNone); ("level", PInt 3)] ["ls"];
       Ok (head ++ (if is_None PNone then [] else [PNone]) ++ tail)).
Proof.
  apply (expand_token_raw_and_filtered [("flag", PNone); ("level", PInt 3)]
           "flag" PNone ["{level}"] ["ls"] ["{level}"; "{flag}"] [PInt 3; PNone]).
  - reflexivity.
  - repeat constructor.
Defined.

(** *** [str.replace] *)

Lemma prefix_append (old s : string) : String.prefix old (old +:+ s) = true.
Proof.
  induction old as [|c old IH]; [by destruct s|].
  change (String c old +:+ s) with (String c (old +:+ s)).
  cbn [String.prefix]. by destruct (ascii_dec c c).
Qed.

Lemma replace_scan_skip (old new skipped s : string) :
  PyStr.replace_scan old new (String.length skipped) (skipped +:+ s)
  = PyStr.replace_scan old new 0 s.
Proof.
  induction skipped as [|c skipped IH]; [done|].
  change (String c skipped +:+ s) with (String c (skipped +:+ s)).
  cbn [String.length PyStr.replace_scan]. exact IH.
Qed.

(** The three equations of a left-to-right replacement of the non-empty
    [old]: nothing in the empty string; at an occurrence, [new] and the scan
    goes on after the occurrence; elsewhere the character is kept. *)
Lemma replace_empty (c : ascii) (old new : string) :
  PyStr.replace EmptyString (String c old) new = EmptyString.
Proof. reflexivity. Qed.

Lemma replace_occurrence (c : ascii) (old new s : string) :
  PyStr.replace (String c old +:+ s) (String c old) new
  = new +:+ PyStr.replace s (String c old) new.
Proof.
  unfold PyStr.replace.
  change (String c old +:+ s) with (String c (old +:+ s)).
  cbn [PyStr.replace_scan].
  change (String c (old +:+ s)) with (String c old +:+ s).
  rewrite prefix_append. cbn [String.length Nat.sub].
  rewrite ?Nat.sub_0_r. by rewrite replace_scan_skip.
Qed.

Lemma replace_other (c x : ascii) (old new s : string) :
  String.prefix (String c old) (String x s) = false →
  PyStr.replace (String x s) (String c old) new
  = String x (PyStr.replace s (String c old) new).
Proof.
  intros Hprefix. unfold PyStr.replace. cbn [PyStr.replace_scan].
  by rewrite Hprefix.
Qed.

(** *** Interpolation *)

Lemma expand_tokens_substitute (values : list (string * pyval))
    (names : list string) (argument : string) :
  Forall (λ binding, is_text binding.2) values →
  names ⊆ dict_keys values →
  expand_tokens values names argument =
    Ok (fold_left
          (λ text name, PyStr.replace text (token name) (bound_text values name))
          names argument).
Proof.
  intros Htext. revert argument.
  induction names as [|name names IH]; intros argument Hsub; [done|].
  cbn [expand_tokens fold_left].
  destruct (proj2 (dict_get_is_Some values name)) as [v Hv].
  { apply Hsub. constructor. }
  unfold dict_getitem, bound_text at 2. rewrite Hv. run_result.
  apply dict_get_elem_of in Hv.
  pose proof (proj1 (Forall_forall _ _) Htext _ Hv) as Hv'. cbn in Hv'.
  destruct Hv' as [->|[s ->]];
    cbn [is_None str_replace]; run_result;
    apply IH; intros k Hk; apply Hsub; by constructor.
Qed.

(** C8, as the code has it: when the template is not the token of a bound
    name and the bound values are strings or [None], [expand] returns the template with, for
    each bound name in turn, every occurrence of its token replaced by the
    bound string, and by the empty string when the binding is [None]. *)
Theorem expand_interpolates (values : list (string * pyval)) (argument : string) :
  Forall (λ binding, is_text binding.2) values →
  (∀ name, name ∈ dict_keys values → argument ≠ token name) →
  expand values argument = Ok (PStr (substitute values argument)).
Proof.
  intros Htext Hother. unfold expand, substitute.
  rewrite expand_whole_other by done.
  by rewrite expand_tokens_substitute.
Qed.

Lemma expand_interpolates_witness :
  expand [("flag", PNone); ("name", PStr "bob")] "--user={name}{flag}"
  = Ok (PStr (substitute [("flag", PNone); ("name", PStr "bob")] "--user={name}{flag}")).
Proof.
  apply (expand_interpolates [("flag", PNone); ("name", PStr "bob")]
           "--user={name}{flag}").
  - apply Forall_cons. split; [by left|].
    apply Forall_cons. split; [right; by eexists|]. apply Forall_nil_2.
  - intros name Hin. cbn in Hin.
    repeat (apply elem_of_cons in Hin as [->|Hin]; [discriminate|]).
    by apply elem_of_nil in Hin.
Defined.

(** A [None] binding inside other text leaves nothing behind. *)
Example expand_None_inside :
  expand [("flag", PNone); ("name", PStr "bob")] "--user={name}{flag}"
  = Ok (PStr "--user=bob").
Proof. reflexivity. Qed.

(** C8, as stated, fails for a bound value that is neither a string nor
    [None]: the replacement raises, whether or not the token occurs, and no
    text is substituted. *)
Lemma expand_not_text :
  expand [("count", PInt 3)] "ls" = Raise TypeError
  ∧ expand [("verbose", PBool true)] "--verbose={verbose}" = Raise TypeError.
Proof. split; reflexivity. Qed.

(** *** The dispatch of [run] on the viewer *)

Section Run.

Variable parses_as_float : string → bool.
Variable decode_utf8 : bytes → result string.
Variable splitlines : string → list string.
Variable split : string → pyval → result (list string).
Variable loads : bytes → result pyval.
Variable subprocess_run : list pyval → result bytes.

Let run_action :=
  run parses_as_float decode_utf8 splitlines split loads subprocess_run.

(** With a viewer that is configured and is neither ['table'] nor
    ['json'], [run] returns the captured bytes as they are. *)
Lemma run_other_viewer_raw (arguments : list string)
    (values configuration : list (string * pyval)) (argv : list pyval)
    (stdout : bytes) (viewer : pyval) (w : world) :
  expanded values arguments = Ok argv →
  subprocess_run argv = Ok stdout →
  dict_get "viewer" configuration = Some viewer →
  eq_str viewer "table" = false →
  eq_str viewer "json" = false →
  run_action arguments values configuration w = (Ok (RunRaw stdout), w).
Proof.
  intros Hargv Hrun Hviewer Htable Hjson. unfold run_action, run.
  rewrite Hargv. run_M. rewrite Hrun. run_M.
  unfold dict_getitem. rewrite Hviewer. run_M. rewrite Htable. run_M.
  rewrite Hjson. by run_M.
Qed.

(** Without a ['viewer'] key the first test of the dispatch raises. *)
Lemma run_no_viewer_KeyError (arguments : list string)
    (values configuration : list (string * pyval)) (argv : list pyval)
    (stdout : bytes) (w : world) :
  expanded values arguments = Ok argv →
  subprocess_run argv = Ok stdout →
  dict_get "viewer" configuration = None →
  run_action arguments values configuration w = (Raise KeyError, w).
Proof.
  intros Hargv Hrun Hviewer. unfold run_action, run.
  rewrite Hargv. run_M. rewrite Hrun. run_M.
  unfold dict_getitem. rewrite Hviewer. by run_M.
Qed.

End Run.

(** C2, where the code departs from it: for the command [["ls"]] and an
    output configuration without a ['viewer'] key, [run] raises [KeyError]
    instead of returning what the command printed. ([main] reads the same
    key through [Cliquetis.default] with ['multiline'] as default.) *)
Theorem run_without_viewer_raises (parses_as_float : string → bool)
    (decode_utf8 : bytes → result string) (splitlines : string → list string)
    (split : string → pyval → result (list string)) (loads : bytes → result pyval)
    (stdout : bytes) (w : world) :
  run parses_as_float decode_utf8 splitlines split loads (λ _, Ok stdout)
    ["ls"] [] [] w = (Raise KeyError, w)
  ∧ Cliquetis.default ([] : list (string * pyval)) "viewer" (PStr "multiline")
    = PStr "multiline".
Proof. split; reflexivity. Qed.

(** ** [TreeViewer.display_data] *)

Section DisplayData.

Variable collapsed : bool.
Variable key_values : option (list string).

Let display := display_data collapsed key_values.
Let display_rows := display_list collapsed key_values display.

Lemma display_data_PList (rows : list pyval) (tree : list node) (parent : iid) :
  display (PList rows) tree parent = display_rows parent rows 0 tree.
Proof. reflexivity. Qed.

Lemma display_list_app (before rest : list pyval) (index : nat)
    (tree : list node) (parent : iid) :
  display_rows parent (before ++ rest) index tree =
    (tree1 ← display_rows parent before index tree;
     display_rows parent rest (index + length before) tree1).
Proof.
  revert index tree.
  induction before as [|row before IH]; intros index tree.
  { cbn. by rewrite Nat.add_0_r. }
  cbn [app length]. unfold display_rows in *. cbn [display_list].
  replace (index + S (length before)) with (S index + length before) by lia.
  destruct (has_key_values key_values row).
  - destruct (display row tree parent) as [tree1|e]; [|done]. run_result.
    apply IH.
  - destruct (isinstance_dict row || isinstance_list row).
    + cbn [tree_insert].
      destruct (display row _ _) as [tree2|e]; [|done]. run_result. apply IH.
    + apply IH.
Qed.

Lemma mapM_dict_getitem (d : list (string * pyval)) (names : list string) :
  forallb (λ name, dict_in name d) names = true →
  ∃ values, mapM (dict_getitem d) names = Ok values
            ∧ Forall2 (λ name value, dict_get name d = Some value) names values.
Proof.
  induction names as [|name names IH]; intros Hall.
  { exists []. by split; [|constructor]. }
  cbn [forallb] in Hall. apply andb_true_iff in Hall as [Hin Hall].
  destruct (IH Hall) as (values & Hrun & Hvalues).
  apply bool_decide_eq_true in Hin as [value Hvalue].
  exists (value :: values). split; [|by constructor].
  assert (dict_getitem d name = Ok value) as Hitem.
  { unfold dict_getitem. by rewrite Hvalue. }
  cbn [mapM]. rewrite Hitem, Hrun. reflexivity.
Qed.

End DisplayData.

(** C4: with a key-values list configured, an object that has every field of
    the list is shown as one node under the current parent, labelled with the
    value of the first field and carrying the values of the other fields, and
    the walk does not enter the object; when the object is an element of an
    array, that node is all the element adds, under the parent of the array,
    with no node for its index. *)
Theorem display_data_key_values (collapsed : bool) (field_key : string)
    (field_values : list string) (d : list (string * pyval))
    (before after : list pyval) (tree : list node) (parent : iid) :
  has_key_values (Some (field_key :: field_values)) (PDict d) = true →
  ∃ text values,
    dict_get field_key d = Some text
    ∧ Forall2 (λ name value, dict_get name d = Some value) field_values values
    ∧ display_data collapsed (Some (field_key :: field_values)) (PDict d) tree parent
      = Ok (tree ++ [record_node parent text values])
    ∧ display_data collapsed (Some (field_key :: field_values))
        (PList (before ++ PDict d :: after)) tree parent
      = (tree1 ← display_data collapsed (Some (field_key :: field_values))
                   (PList before) tree parent;
         display_list collapsed (Some (field_key :: field_values))
           (display_data collapsed (Some (field_key :: field_values)))
           parent after (S (length before))
           (tree1 ++ [record_node parent text values])).
Proof.
  intros Hhas.
  assert (Hfields := Hhas). cbn [has_key_values forallb] in Hfields.
  apply andb_true_iff in Hfields as [Hkey Hvalues].
  destruct (mapM_dict_getitem d field_values Hvalues) as (values & Hrun & Hall).
  apply bool_decide_eq_true in Hkey as Hkey'. destruct Hkey' as [text Htext].
  assert (∀ tree parent,
    display_data collapsed (Some (field_key :: field_values)) (PDict d) tree parent
    = Ok (tree ++ [record_node parent text values])) as Hnode.
  { intros tree' parent'. cbn [display_data]. rewrite Hhas.
    assert (dict_getitem d field_key = Ok text) as Hitem.
    { unfold dict_getitem. by rewrite Htext. }
    unfold display_key_values. rewrite Hkey, Hvalues. cbn [andb].
    rewrite Hitem, Hrun. reflexivity. }
  exists text, values. repeat split; [done..|].
  rewrite !display_data_PList, display_list_app.
  destruct (display_list _ _ _ parent before 0 tree) as [tree1|e]; [|done].
  run_result. cbn [display_list]. rewrite Hhas, Hnode. reflexivity.
Qed.

Lemma display_data_key_values_witness :
  ∃ text values,
    dict_get "id" [("id", PStr "y"); ("n", PInt 2)] = Some text
    ∧ Forall2 (λ name value, dict_get name [("id", PStr "y"); ("n", PInt 2)] = Some value)
        ["n"] values
    ∧ display_data true (Some ["id"; "n"]) (PDict [("id", PStr "y"); ("n", PInt 2)])
        [] Root
      = Ok ([] ++ [record_node Root text values])
    ∧ display_data true (Some ["id"; "n"])
        (PList ([PDict [("id", PStr "x"); ("n", PInt 1)]]
                ++ PDict [("id", PStr "y"); ("n", PInt 2)] :: [PInt 7])) [] Root
      = (tree1 ← display_data true (Some ["id"; "n"])
                   (PList [PDict [("id", PStr "x"); ("n", PInt 1)]]) [] Root;
         display_list true (Some ["id"; "n"]) (display_data true (Some ["id"; "n"]))
           Root [PInt 7] (S (length [PDict [("id", PStr "x"); ("n", PInt 1)]]))
           (tree1 ++ [record_node Root text values])).
Proof.
  apply (display_data_key_values true "id" ["n"] [("id", PStr "y"); ("n", PInt 2)]
           [PDict [("id", PStr "x"); ("n", PInt 1)]] [PInt 7] [] Root).
  reflexivity.
Defined.

(** The array of two records of the specification: two sibling nodes under
    the root, and no node for an index. *)
Example display_data_records :
  display_data true (Some ["id"; "n"])
    (PList [PDict [("id", PStr "x"); ("n", PInt 1)];
            PDict [("id", PStr "y"); ("n", PInt 2)]]) [] Root
  = Ok [record_node Root (PStr "x") [PInt 1]; record_node Root (PStr "y") [PInt 2]].
Proof. reflexivity. Qed.

(** An empty key-values list matches every object, and reading its first
    name raises. *)
Example display_data_empty_key_values :
  display_data true (Some []) (PDict [("a", PInt 1)]) [] Root = Raise IndexError.
Proof. reflexivity. Qed.

(** ** [TabularData.group_by] *)

(** *** The dict of groups *)

Lemma dict_get_set {V : Type} (d : list (string * V)) (key name : string) (v : V) :
  dict_get key (dict_set name v d) = if decide (key = name) then Some v else dict_get key d.
Proof.
  induction d as [|[k v'] d IH]; cbn.
  - by repeat case_decide.
  - destruct (decide (name = k)) as [->|Hne]; cbn.
    + by repeat case_decide.
    + rewrite IH. repeat case_decide; congruence.
Qed.

Lemma dict_keys_set {V : Type} (d : list (string * V)) (name : string) (v : V) :
  dict_keys (dict_set name v d) =
    if decide (name ∈ dict_keys d) then dict_keys d else dict_keys d ++ [name].
Proof.
  unfold dict_keys. induction d as [|[k v'] d IH]; cbn.
  - rewrite decide_False; [done|]. apply not_elem_of_nil.
  - destruct (decide (name = k)) as [->|Hne]; cbn.
    + rewrite decide_True; [done|]. constructor.
    + rewrite IH. destruct (decide (name ∈ d.*1)) as [Hin|Hnin].
      * rewrite decide_True; [done|]. by constructor.
      * rewrite decide_False; [done|]. by intros [?|?]%elem_of_cons.
Qed.

Lemma concat_add_member (groups : list (string * list loc)) (name : string) (row : loc) :
  concat (add_member name row groups).*2 ≡ₚ concat groups.*2 ++ [row].
Proof.
  unfold add_member. induction groups as [|[k members] groups IH]; cbn; [done|].
  destruct (decide (name = k)) as [->|Hne]; cbn.
  - rewrite <- !app_assoc. apply Permutation_app_head, Permutation_app_comm.
  - rewrite IH. by rewrite app_assoc.
Qed.

Lemma grouping_cons (key : loc → string) (row : loc) (rows : list loc)
    (groups : list (string * list loc)) :
  grouping key (row :: rows) groups
  = grouping key rows (add_member (key row) row groups).
Proof. reflexivity. Qed.

Lemma grouping_keys (key : loc → string) (rows : list loc)
    (groups : list (string * list loc)) :
  dict_keys (grouping key rows groups) =
    dict_keys groups
    ++ filter (λ name, name ∉ dict_keys groups) (first_seen (key <$> rows)).
Proof.
  revert groups. induction rows as [|row rows IH]; intros groups.
  { cbn. by rewrite app_nil_r. }
  rewrite grouping_cons, IH. unfold add_member. rewrite dict_keys_set.
  cbn [fmap list_fmap first_seen]. case_decide as Hin.
  - rewrite filter_cons_False by tauto. f_equal.
    rewrite list_filter_filter. apply list_filter_iff. intros name.
    split; [|tauto]. intros Hname. split; [done|]. by intros ->.
  - rewrite filter_cons_True by done. rewrite <- app_assoc. cbn. do 2 f_equal.
    rewrite list_filter_filter. apply list_filter_iff. intros name.
    rewrite elem_of_app, list_elem_of_singleton. tauto.
Qed.

Lemma grouping_get (key : loc → string) (rows : list loc)
    (groups : list (string * list loc)) (name : string) :
  name ∈ dict_keys (grouping key rows groups) →
  dict_get name (grouping key rows groups) =
    Some (default [] (dict_get name groups) ++ filter (λ row, key row = name) rows).
Proof.
  revert groups. induction rows as [|row rows IH]; intros groups Hin.
  { cbn in *. apply dict_get_is_Some in Hin as [members ->]. cbn.
    by rewrite app_nil_r. }
  rewrite grouping_cons in *. rewrite (IH _ Hin). f_equal.
  unfold add_member. rewrite dict_get_set.
  destruct (decide (name = key row)) as [->|Hne].
  - rewrite filter_cons_True by done. cbn. by rewrite <- app_assoc.
  - by rewrite filter_cons_False by done.
Qed.

Lemma grouping_concat (key : loc → string) (rows : list loc)
    (groups : list (string * list loc)) :
  concat (grouping key rows groups).*2 ≡ₚ concat groups.*2 ++ rows.
Proof.
  revert groups. induction rows as [|row rows IH]; intros groups.
  { cbn. by rewrite app_nil_r. }
  rewrite grouping_cons, IH, concat_add_member. by rewrite <- app_assoc.
Qed.

(** *** The loop over the rows *)

Lemma py_index_nat (len n : nat) : n < len → py_index len (Z.of_nat n) = Some n.
Proof.
  intros Hlt. unfold py_index.
  destruct (Z.leb_spec 0 (Z.of_nat n)); [|lia].
  destruct (Z.ltb_spec (Z.of_nat n) (Z.of_nat len)); [|lia].
  by rewrite Nat2Z.id.
Qed.

Lemma py_getitem_nat {A : Type} (l : list A) (n : nat) (x : A) :
  l !! n = Some x → py_getitem l (Z.of_nat n) = Ok x.
Proof.
  intros Hx. unfold py_getitem.
  rewrite py_index_nat by (by eapply lookup_lt_Some). by rewrite Hx.
Qed.

Lemma py_del_nat {A : Type} (l : list A) (n : nat) :
  n < length l → py_del l (Z.of_nat n) = Ok (delete n l).
Proof. intros Hlt. unfold py_del. by rewrite py_index_nat. Qed.

Lemma group_by_row_run (n : nat) (row : loc) (groups : list (string * list loc))
    (w : world) (name : string) :
  heap w row !! n = Some name →
  group_by_row (Z.of_nat n) groups row w =
    (Ok (add_member name row groups),
     mkWorld (<[row := delete n (heap w row)]> (heap w)) (next_loc w) (self w)).
Proof.
  intros Hname. unfold group_by_row. run_M.
  rewrite (py_getitem_nat _ _ _ Hname). run_M.
  rewrite py_del_nat by (by eapply lookup_lt_Some). run_M.
  unfold add_member. by destruct (dict_get name groups).
Qed.

Lemma group_by_rows_run (n : nat) (key : loc → string) (rows : list loc)
    (groups : list (string * list loc)) (w : world) :
  NoDup rows →
  (∀ row, row ∈ rows → heap w row !! n = Some (key row)) →
  ∃ w', group_by_rows (Z.of_nat n) groups rows w = (Ok (grouping key rows groups), w')
        ∧ self w' = self w
        ∧ next_loc w' = next_loc w
        ∧ ∀ r, heap w' r = if decide (r ∈ rows) then delete n (heap w r) else heap w r.
Proof.
  revert groups w. induction rows as [|row rows IH]; intros groups w Hnodup Hkey.
  { exists w. by repeat split. }
  apply NoDup_cons in Hnodup as [Hfresh Hnodup].
  cbn [group_by_rows]. rewrite M_bind_run.
  rewrite (group_by_row_run n row groups w (key row)) by (apply Hkey; constructor).
  set (w1 := mkWorld _ _ _).
  destruct (IH (add_member (key row) row groups) w1 Hnodup) as (w' & Hrun & ? & ? & Hheap).
  { intros r Hr. subst w1. cbn [heap].
    rewrite fn_lookup_insert_ne by (by intros ->).
    apply Hkey. by constructor. }
  exists w'. rewrite Hrun. repeat split; [done..|].
  intros r. rewrite Hheap. subst w1. cbn [heap].
  destruct (decide (r = row)) as [->|Hne].
  - rewrite decide_False by done. rewrite decide_True by constructor.
    by rewrite fn_lookup_insert.
  - rewrite fn_lookup_insert_ne by done.
    destruct (decide (r ∈ rows)) as [Hin|Hnin].
    + rewrite decide_True; [done|]. by constructor.
    + rewrite decide_False; [done|]. by intros [?|?]%elem_of_cons.
Qed.

Lemma filter_all {A : Type} (P : A → Prop) `{∀ x, Decision (P x)} (l : list A) :
  (∀ x, x ∈ l → P x) → filter P l = l.
Proof.
  induction l as [|x l IH]; intros Hall; [done|].
  rewrite filter_cons_True by (apply Hall; constructor).
  f_equal. apply IH. intros y Hy. apply Hall. by constructor.
Qed.

Lemma first_seen_NoDup (l : list string) : NoDup (first_seen l).
Proof.
  induction l as [|x l IH]; cbn; [constructor|].
  apply NoDup_cons. split.
  - rewrite list_elem_of_filter. tauto.
  - by apply NoDup_filter.
Qed.

Lemma first_seen_elem_of (l : list string) (x : string) : x ∈ first_seen l ↔ x ∈ l.
Proof.
  induction l as [|y l IH]; cbn; [done|].
  rewrite !elem_of_cons, list_elem_of_filter, IH.
  destruct (decide (x = y)); tauto.
Qed.

Lemma maximum_length_row_length (row : list string) (maximum : list nat)
    (column : nat) (maximum' : list nat) :
  maximum_length_row maximum column row = Ok maximum' →
  length maximum' = length maximum.
Proof.
  revert maximum column. induction row as [|value row IH]; intros maximum column.
  { by intros [= <-]. }
  destruct (maximum !! column) as [m|] eqn:Hm; [|cbn; by rewrite Hm].
  destruct (maximum_length_row_step _ _ value row _ Hm) as (maximum1 & Hlen & ->).
  intros Hrun%IH. congruence.
Qed.

Lemma maximum_length_rows_length (rows : list (list string)) (maximum maximum' : list nat) :
  maximum_length_rows maximum rows = Ok maximum' →
  length maximum' = length maximum.
Proof.
  revert maximum. induction rows as [|row rows IH]; intros maximum.
  { by intros [= <-]. }
  cbn [maximum_length_rows].
  destruct (maximum_length_row maximum 0 row) as [maximum1|] eqn:Hrow; [|done].
  apply maximum_length_row_length in Hrow. run_result.
  intros Hrun%IH. congruence.
Qed.

(** [group_by] on an imported dataset of distinct row objects: the world it
    leaves, in terms of [grouping]. *)
Lemma group_by_run (parses_as_float : string → bool) (rows : list loc)
    (w w0 : world) (column : nat) :
  NoDup rows →
  import_data parses_as_float rows w = (Ok ReturnSelf, w0) →
  column < width (self w0) →
  (∀ row, row ∈ tail rows → column < length (heap w0 row)) →
  ∃ w1,
    group_by (Z.of_nat column) w0 = (Ok ReturnSelf, w1)
    ∧ headings (self w1) = headings (self w0)
    ∧ data (self w1) = Grouped (grouping (cell w0 column) (tail rows) [])
    ∧ column_types (self w1) = delete column (column_types (self w0))
    ∧ maximum_lengths (self w1) = delete column (maximum_lengths (self w0))
    ∧ heap w1 (headings (self w0)) = delete column (heap w0 (headings (self w0)))
    ∧ (∀ row, row ∈ tail rows → heap w1 row = delete column (heap w0 row))
    ∧ width (self w0) = length (heap w0 (headings (self w0)))
    ∧ length (column_types (self w0)) = length (heap w0 (headings (self w0)))
    ∧ length (maximum_lengths (self w0)) = length (heap w0 (headings (self w0))).
Proof.
  intros Hnodup (data_0 & row & data_1 & types & maximum & -> & -> & Htypes & Hmax)
    %import_data_ReturnSelf Hcolumn Hrows.
  cbn [imported self width heap tail headings column_types maximum_lengths] in *.
  apply NoDup_cons in Hnodup as [Hheading Hnodup].
  assert (length types = length (heap w data_0)) as Hlen_types.
  { unfold _find_column_types in Htypes.
    destruct (column_types_rows_outcome parses_as_float (heap w <$> row :: data_1)
                (replicate (length (heap w data_0)) Cliquetis.NUMBER)
                (replicate (length (heap w data_0)) Cliquetis.STRING))
      as [(types' & Htypes' & Hlen)|?]; [|congruence].
    rewrite length_replicate in Hlen. congruence. }
  assert (length maximum = length (heap w data_0)) as Hlen_max.
  { apply maximum_length_rows_length in Hmax. by rewrite length_fmap in Hmax. }
  set (w0 := imported w data_0 (row :: data_1) types maximum).
  destruct (group_by_rows_run column (cell w0 column) (row :: data_1) [] w0 Hnodup)
    as (w' & Hrun & Hself & Hnext & Hheap).
  { intros r Hr. unfold cell. cbn [heap w0 imported].
    destruct (lookup_lt_is_Some_2 (heap w r) column) as [name ->]; [by apply Hrows|].
    done. }
  assert (heap w' data_0 = heap w data_0) as Hheading'.
  { rewrite Hheap. by rewrite decide_False. }
  eexists. split.
  { unfold group_by. run_M. cbn [w0 imported self data]. rewrite Hrun.
    run_M. rewrite Hheading', py_del_nat by done. run_M.
    rewrite !py_del_nat by lia. run_M. rewrite Hself, Hnext.
    cbn [w0 imported self headings width next_loc]. reflexivity. }
  cbn [self heap headings column_types maximum_lengths data].
  rewrite fn_lookup_insert. repeat split; try done.
  intros r Hr. rewrite fn_lookup_insert_ne by (by intros ->).
  rewrite Hheap. by rewrite decide_True.
Qed.

Lemma grouping_keys_first_seen (key : loc → string) (rows : list loc) :
  dict_keys (grouping key rows []) = first_seen (key <$> rows).
Proof.
  rewrite grouping_keys. cbn [dict_keys fmap list_fmap app].
  apply filter_all. intros name _. apply not_elem_of_nil.
Qed.

(** C3, as the code has it: on an imported dataset whose rows are distinct
    list objects, and for a column index that every row and the heading row
    have, [group_by] returns normally; the headings, the column types and the
    maximum lengths each lose one element, the one at the column, and so keep
    equal lengths; [self.data] becomes a dict whose keys are the cells of the
    rows at the column, in the order of first occurrence, each bound to the
    rows that have this cell there, in their original order; every row is in
    the groups exactly once; and every row has lost its cell at the column. *)
Theorem group_by_regroups (parses_as_float : string → bool) (rows : list loc)
    (w w0 : world) (column : nat) :
  NoDup rows →
  import_data parses_as_float rows w = (Ok ReturnSelf, w0) →
  column < width (self w0) →
  (∀ row, row ∈ tail rows → column < length (heap w0 row)) →
  ∃ w1 groups,
    group_by (Z.of_nat column) w0 = (Ok ReturnSelf, w1)
    ∧ heap w1 (headings (self w1)) = delete column (heap w0 (headings (self w0)))
    ∧ column_types (self w1) = delete column (column_types (self w0))
    ∧ maximum_lengths (self w1) = delete column (maximum_lengths (self w0))
    ∧ S (length (heap w1 (headings (self w1)))) = length (heap w0 (headings (self w0)))
    ∧ S (length (column_types (self w1))) = length (column_types (self w0))
    ∧ S (length (maximum_lengths (self w1))) = length (maximum_lengths (self w0))
    ∧ length (column_types (self w1)) = length (heap w1 (headings (self w1)))
    ∧ length (maximum_lengths (self w1)) = length (heap w1 (headings (self w1)))
    ∧ data (self w1) = Grouped groups
    ∧ dict_keys groups = first_seen (cell w0 column <$> tail rows)
    ∧ NoDup (dict_keys groups)
    ∧ (∀ name, name ∈ dict_keys groups →
         dict_get name groups
         = Some (filter (λ row, cell w0 column row = name) (tail rows)))
    ∧ concat groups.*2 ≡ₚ tail rows
    ∧ (∀ row, row ∈ tail rows → heap w1 row = delete column (heap w0 row)).
Proof.
  intros Hnodup Himport Hcolumn Hrows.
  destruct (group_by_run _ _ _ _ _ Hnodup Himport Hcolumn Hrows)
    as (w1 & Hrun & Hheadings & Hdata & Htypes & Hmax & Hheap & Hcells
        & Hwidth & Hlen_types & Hlen_max).
  exists w1, (grouping (cell w0 column) (tail rows) []).
  rewrite Hheadings, Htypes, Hmax, Hheap.
  rewrite !length_delete by (apply lookup_lt_is_Some_2; lia).
  rewrite grouping_keys_first_seen.
  repeat split; try lia; try done.
  - apply first_seen_NoDup.
  - intros name Hname. rewrite grouping_get; [done|].
    by rewrite grouping_keys_first_seen.
  - by rewrite grouping_concat.
Qed.

Lemma group_by_regroups_witness :
  ∃ w1 groups,
    group_by (Z.of_nat 0) (import_data sample_float [0; 1; 2] sample_world).2
      = (Ok ReturnSelf, w1)
    ∧ heap w1 (headings (self w1))
      = delete 0 (heap (import_data sample_float [0; 1; 2] sample_world).2
                    (headings (self (import_data sample_float [0; 1; 2] sample_world).2)))
    ∧ column_types (self w1)
      = delete 0 (column_types (self (import_data sample_float [0; 1; 2] sample_world).2))
    ∧ maximum_lengths (self w1)
      = delete 0 (maximum_lengths (self (import_data sample_float [0; 1; 2] sample_world).2))
    ∧ S (length (heap w1 (headings (self w1))))
      = length (heap (import_data sample_float [0; 1; 2] sample_world).2
                  (headings (self (import_data sample_float [0; 1; 2] sample_world).2)))
    ∧ S (length (column_types (self w1)))
      = length (column_types (self (import_data sample_float [0; 1; 2] sample_world).2))
    ∧ S (length (maximum_lengths (self w1)))
      = length (maximum_lengths (self (import_data sample_float [0; 1; 2] sample_world).2))
    ∧ length (column_types (self w1)) = length (heap w1 (headings (self w1)))
    ∧ length (maximum_lengths (self w1)) = length (heap w1 (headings (self w1)))
    ∧ data (self w1) = Grouped groups
    ∧ dict_keys groups
      = first_seen (cell (import_data sample_float [0; 1; 2] sample_world).2 0
                      <$> tail [0; 1; 2])
    ∧ NoDup (dict_keys groups)
    ∧ (∀ name, name ∈ dict_keys groups →
         dict_get name groups
         = Some (filter (λ row, cell (import_data sample_float [0; 1; 2] sample_world).2
                                  0 row = name) (tail [0; 1; 2])))
    ∧ concat groups.*2 ≡ₚ tail [0; 1; 2]
    ∧ (∀ row, row ∈ tail [0; 1; 2] →
         heap w1 row
         = delete 0 (heap (import_data sample_float [0; 1; 2] sample_world).2 row)).
Proof.
  apply (group_by_regroups sample_float [0; 1; 2] sample_world
           (import_data sample_float [0; 1; 2] sample_world).2 0).
  - by apply (bool_decide_unpack _).
  - reflexivity.
  - vm_compute. lia.
  - intros row Hin. cbn [tail] in Hin.
    repeat (apply elem_of_cons in Hin as [->|Hin]; [vm_compute; lia|]).
    by apply elem_of_nil in Hin.
Defined.

(** C3, as stated, fails when a row object occurs twice in the data: the
    second visit of the loop finds the row already shortened, files it under
    its next cell, and shortens it again. *)
Lemma group_by_shared_row_object :
  (import_data sample_float [0; 1; 1] sample_world).1 = Ok ReturnSelf
  ∧ heap (import_data sample_float [0; 1; 1] sample_world).2 1 = ["a"; "10"]
  ∧ ((import_data sample_float [0; 1; 1];; group_by 0%Z) sample_world).1
    = Ok ReturnSelf
  ∧ data (self ((import_data sample_float [0; 1; 1];; group_by 0%Z) sample_world).2)
    = Grouped [("a", [1]); ("10", [1])]
  ∧ heap ((import_data sample_float [0; 1; 1];; group_by 0%Z) sample_world).2 1
    = []
  ∧ heap ((import_data sample_float [0; 1; 1];; group_by 0%Z) sample_world).2 1
    ≠ delete 0 (heap (import_data sample_float [0; 1; 1] sample_world).2 1).
Proof. repeat split; try reflexivity. by vm_compute. Qed.

(** The rows that [import_raw_data] builds are new objects, one for each
    line, hence distinct. *)
Lemma mapM_alloc_run (rows : list (list string)) (w : world) :
  ∃ w', mapM alloc rows w = (Ok (seq (next_loc w) (length rows)), w')
        ∧ self w' = self w
        ∧ next_loc w' = next_loc w + length rows
        ∧ (∀ i cells, rows !! i = Some cells → heap w' (next_loc w + i) = cells)
        ∧ (∀ r, r < next_loc w → heap w' r = heap w r).
Proof.
  revert w. induction rows as [|cells rows IH]; intros w.
  { exists w. repeat split; [by rewrite Nat.add_0_r|done]. }
  cbn [mapM]. rewrite M_bind_run. cbn [alloc].
  set (w1 := mkWorld _ _ _).
  destruct (IH w1) as (w' & Hrun & Hself & Hnext & Hnew & Hold).
  exists w'. rewrite M_bind_run, Hrun. subst w1. cbn [next_loc self heap] in *.
  split; [done|]. split; [done|]. split; [cbn [length]; lia|]. split.
  - intros [|i] cells' Hcells; cbn in Hcells.
    + injection Hcells as ->. rewrite Nat.add_0_r, Hold by lia.
      by rewrite fn_lookup_insert.
    + rewrite <- (Hnew i cells' Hcells). f_equal. lia.
  - intros r Hr. rewrite Hold by lia. by rewrite fn_lookup_insert_ne by lia.
Qed.

Lemma mapM_alloc_NoDup (rows : list (list string)) (w w' : world) (data : list loc) :
  mapM alloc rows w = (Ok data, w') → NoDup data.
Proof.
  destruct (mapM_alloc_run rows w) as (w'' & -> & _). intros [= <- _].
  apply NoDup_seq.
Qed.

(** After [group_by] the order of the dict is the order in which the group
    names first occur in the rows: [insertable_items] yields the groups in
    that order, each with its rows in their original order. *)
Lemma insertable_items_after_group_by (parses_as_float : string → bool)
    (rows : list loc) (w w0 : world) (column : nat) :
  NoDup rows →
  import_data parses_as_float rows w = (Ok ReturnSelf, w0) →
  column < width (self w0) →
  (∀ row, row ∈ tail rows → column < length (heap w0 row)) →
  ∃ w1,
    group_by (Z.of_nat column) w0 = (Ok ReturnSelf, w1)
    ∧ insertable_items w1 =
        (Ok (first_seen (cell w0 column <$> tail rows) ≫= λ name,
               (EmptyString, GroupName name)
               :: ((λ row, (name, Row row))
                   <$> filter (λ row, cell w0 column row = name) (tail rows))),
         w1).
Proof.
  intros Hnodup Himport Hcolumn Hrows.
  destruct (group_by_run _ _ _ _ _ Hnodup Himport Hcolumn Hrows)
    as (w1 & Hrun & _ & Hdata & _).
  exists w1. split; [done|].
  rewrite insertable_items_run, Hdata. cbn [items_sequence].
  rewrite grouping_keys_first_seen. do 2 f_equal.
  assert (∀ names : list string,
    names ⊆ first_seen (cell w0 column <$> tail rows) →
    names ≫= group_block (grouping (cell w0 column) (tail rows) []) =
    names ≫= λ name,
      (EmptyString, GroupName name)
      :: ((λ row, (name, Row row))
          <$> filter (λ row, cell w0 column row = name) (tail rows))) as Hblocks.
  { induction names as [|name names IH]; intros Hsub; [done|].
    cbn [mbind list_bind]. rewrite IH by (intros k Hk; apply Hsub; by constructor).
    f_equal. unfold group_block. rewrite grouping_get; [done|].
    rewrite grouping_keys_first_seen. apply Hsub. constructor. }
  by apply Hblocks.
Qed.

(** * Further properties of the code *)

(** ** [TabularData._find_maximum_length] *)

Lemma maximum_length_row_cons (maximum : list nat) (column : nat)
    (value : string) (row : list string) (m : nat) :
  maximum !! column = Some m →
  maximum_length_row maximum column (value :: row)
  = maximum_length_row (<[column := m `max` String.length value]> maximum)
      (S column) row.
Proof.
  intros Hm. cbn [maximum_length_row]. rewrite Hm.
  destruct (Nat.ltb_spec m (String.length value)).
  - by rewrite Nat.max_r by lia.
  - rewrite Nat.max_l by lia. by rewrite list_insert_id.
Qed.

(** One row raises every entry it has a cell for to the length of the cell,
    and no further. *)
Lemma maximum_length_row_bounds (row : list string) (maximum : list nat)
    (column : nat) (maximum' : list nat) (c m : nat) :
  maximum_length_row maximum column row = Ok maximum' →
  maximum !! c = Some m →
  ∃ m', maximum' !! c = Some m' ∧ m ≤ m'
    ∧ (∀ value, column ≤ c → row !! (c - column) = Some value →
                String.length value ≤ m')
    ∧ (m' = m ∨ ∃ value, column ≤ c ∧ row !! (c - column) = Some value
                         ∧ m' = String.length value).
Proof.
  revert maximum column m.
  induction row as [|value row IH]; intros maximum column m Hrun Hm.
  { injection Hrun as <-. exists m. repeat split; [done..| |by left].
    intros value _ Hnil. by rewrite lookup_nil in Hnil. }
  destruct (maximum !! column) as [mc|] eqn:Hmc; [|cbn in Hrun; by rewrite Hmc in Hrun].
  rewrite (maximum_length_row_cons _ _ _ _ _ Hmc) in Hrun.
  apply lookup_lt_Some in Hmc as Hlt.
  destruct (decide (c = column)) as [->|Hne].
  - assert (m = mc) as -> by congruence.
    destruct (IH _ _ (mc `max` String.length value) Hrun) as (m' & Hm' & Hle & Hall & Hsome).
    { by rewrite list_lookup_insert_eq. }
    exists m'. split; [done|]. split; [lia|]. split.
    + intros v _. rewrite Nat.sub_diag. intros [= <-]. lia.
    + destruct Hsome as [->|(v & Hle' & _)]; [|lia].
      destruct (Nat.max_spec mc (String.length value)) as [[_ ->]|[_ ->]]; [|by left].
      right. exists value. by rewrite Nat.sub_diag.
  - destruct (IH _ _ m Hrun) as (m' & Hm' & Hle & Hall & Hsome).
    { by rewrite list_lookup_insert_ne. }
    exists m'. split; [done|]. split; [done|]. split.
    + intros v Hc. rewrite (lookup_cons_later value) by lia. apply Hall. lia.
    + destruct Hsome as [->|(v & Hle' & Hv & ->)]; [by left|right].
      exists v. split; [lia|]. by rewrite (lookup_cons_later value) by lia.
Qed.

Lemma maximum_length_rows_bounds (rows : list (list string)) (maximum maximum' : list nat)
    (c m : nat) :
  maximum_length_rows maximum rows = Ok maximum' →
  maximum !! c = Some m →
  ∃ m', maximum' !! c = Some m' ∧ m ≤ m'
    ∧ (∀ row value, row ∈ rows → row !! c = Some value → String.length value ≤ m')
    ∧ (m' = m ∨ ∃ row value, row ∈ rows ∧ row !! c = Some value
                             ∧ m' = String.length value).
Proof.
  revert maximum m. induction rows as [|row rows IH]; intros maximum m Hrun Hm.
  { injection Hrun as <-. exists m. repeat split; [done..| |by left].
    intros row value Hin. by apply elem_of_nil in Hin. }
  cbn [maximum_length_rows] in Hrun.
  destruct (maximum_length_row maximum 0 row) as [maximum1|] eqn:Hrow; [|done].
  run_result. cbn in Hrun.
  destruct (maximum_length_row_bounds _ _ _ _ c m Hrow Hm)
    as (m1 & Hm1 & Hle1 & Hall1 & Hsome1).
  destruct (IH _ m1 Hrun Hm1) as (m' & Hm' & Hle & Hall & Hsome).
  exists m'. split; [done|]. split; [lia|]. split.
  - intros r value [->|Hin]%elem_of_cons Hvalue.
    + specialize (Hall1 value). rewrite Nat.sub_0_r in Hall1.
      specialize (Hall1 ltac:(lia) Hvalue). lia.
    + by eapply Hall.
  - destruct Hsome as [->|(r & v & Hin & Hv & ->)].
    + destruct Hsome1 as [->|(v & _ & Hv & ->)]; [by left|right].
      exists row, v. rewrite Nat.sub_0_r in Hv. split; [constructor|done].
    + right. exists r, v. split; [by constructor|done].
Qed.

(** X1: in an imported dataset the maximum length of a column is the
    greatest of the lengths of its heading and of the cells the data rows
    have in that column: no heading or cell is longer, and one of them has
    exactly that length. *)
Theorem maximum_length_is_maximum (parses_as_float : string → bool)
    (rows : list loc) (w w' : world) (c : nat) :
  import_data parses_as_float rows w = (Ok ReturnSelf, w') →
  c < width (self w') →
  ∃ heading m,
    heap w' (headings (self w')) !! c = Some heading
    ∧ maximum_lengths (self w') !! c = Some m
    ∧ String.length heading ≤ m
    ∧ (∀ row value, row ∈ tail rows → heap w row !! c = Some value →
                    String.length value ≤ m)
    ∧ (m = String.length heading
       ∨ ∃ row value, row ∈ tail rows ∧ heap w row !! c = Some value
                      ∧ m = String.length value).
Proof.
  intros (data_0 & row & data_1 & types & maximum & -> & -> & _ & Hmax)
    %import_data_ReturnSelf Hc.
  cbn [imported self width heap headings maximum_lengths tail] in *.
  destruct (lookup_lt_is_Some_2 (heap w data_0) c Hc) as [heading Hheading].
  unfold _find_maximum_length in Hmax.
  destruct (maximum_length_rows_bounds _ _ _ c (String.length heading) Hmax)
    as (m & Hm & Hle & Hall & Hsome).
  { by rewrite list_lookup_fmap, Hheading. }
  exists heading, m. repeat split; [done..| |].
  - intros r value Hin Hvalue. apply (Hall (heap w r)); [|done].
    apply list_elem_of_fmap. by exists r.
  - destruct Hsome as [->|(cells & v & Hin & Hv & ->)]; [by left|right].
    apply list_elem_of_fmap in Hin as (r & -> & Hin). by exists r, v.
Qed.

Lemma maximum_length_is_maximum_witness :
  ∃ heading m,
    heap (import_data sample_float [0; 1; 2] sample_world).2
      (headings (self (import_data sample_float [0; 1; 2] sample_world).2)) !! 1
      = Some heading
    ∧ maximum_lengths (self (import_data sample_float [0; 1; 2] sample_world).2) !! 1
      = Some m
    ∧ String.length heading ≤ m
    ∧ (∀ row value, row ∈ tail [0; 1; 2] → heap sample_world row !! 1 = Some value →
                    String.length value ≤ m)
    ∧ (m = String.length heading
       ∨ ∃ row value, row ∈ tail [0; 1; 2] ∧ heap sample_world row !! 1 = Some value
                      ∧ m = String.length value).
Proof.
  apply (maximum_length_is_maximum sample_float [0; 1; 2] sample_world
           (import_data sample_float [0; 1; 2] sample_world).2 1).
  - reflexivity.
  - vm_compute. lia.
Defined.

(** ** [TabularData.import_data] *)

Lemma column_types_length (parses_as_float : string → bool) (n : nat)
    (rows : list (list string)) (types : list Z) :
  _find_column_types parses_as_float n rows = Ok types → length types = n.
Proof.
  unfold _find_column_types. intros Htypes.
  destruct (column_types_rows_outcome parses_as_float rows
              (replicate n Cliquetis.NUMBER) (replicate n Cliquetis.STRING))
    as [(types' & Htypes' & Hlen)|?]; [|congruence].
  rewrite length_replicate in Hlen. congruence.
Qed.

(** X2: after an import that returned, the model holds the first row as
    headings and the other rows as data, the width is the number of headings,
    and the column types and the maximum lengths have one entry for each
    heading; the list objects themselves are untouched. *)
Theorem import_data_model (parses_as_float : string → bool)
    (rows : list loc) (w w' : world) :
  import_data parses_as_float rows w = (Ok ReturnSelf, w') →
  Some (headings (self w')) = head rows
  ∧ data (self w') = Flat (tail rows)
  ∧ width (self w') = length (heap w' (headings (self w')))
  ∧ length (column_types (self w')) = width (self w')
  ∧ length (maximum_lengths (self w')) = width (self w')
  ∧ heap w' = heap w
  ∧ next_loc w' = next_loc w.
Proof.
  intros (data_0 & row & data_1 & types & maximum & -> & -> & Htypes & Hmax)
    %import_data_ReturnSelf.
  cbn [imported self width heap headings data column_types maximum_lengths
       next_loc head tail].
  apply column_types_length in Htypes.
  apply maximum_length_rows_length in Hmax. rewrite length_fmap in Hmax.
  by repeat split.
Qed.

Lemma import_data_model_witness :
  Some (headings (self (import_data sample_float [0; 1; 2] sample_world).2))
    = head [0; 1; 2]
  ∧ data (self (import_data sample_float [0; 1; 2] sample_world).2) = Flat (tail [0; 1; 2])
  ∧ width (self (import_data sample_float [0; 1; 2] sample_world).2)
    = length (heap (import_data sample_float [0; 1; 2] sample_world).2
                (headings (self (import_data sample_float [0; 1; 2] sample_world).2)))
  ∧ length (column_types (self (import_data sample_float [0; 1; 2] sample_world).2))
    = width (self (import_data sample_float [0; 1; 2] sample_world).2)
  ∧ length (maximum_lengths (self (import_data sample_float [0; 1; 2] sample_world).2))
    = width (self (import_data sample_float [0; 1; 2] sample_world).2)
  ∧ heap (import_data sample_float [0; 1; 2] sample_world).2 = heap sample_world
  ∧ next_loc (import_data sample_float [0; 1; 2] sample_world).2 = next_loc sample_world.
Proof.
  apply (import_data_model sample_float [0; 1; 2] sample_world
           (import_data sample_float [0; 1; 2] sample_world).2).
  reflexivity.
Defined.

(** X3: with a heading row and at least one data row, [import_data] returns
    [self] exactly when no data row has more cells than the heading row; rows
    with fewer cells are accepted. *)
Theorem import_data_returns_iff (parses_as_float : string → bool) (w : world)
    (data_0 row : loc) (data_1 : list loc) :
  (∃ w', import_data parses_as_float (data_0 :: row :: data_1) w = (Ok ReturnSelf, w'))
  ↔ Forall (λ r, length (heap w r) ≤ length (heap w data_0)) (row :: data_1).
Proof.
  split.
  - intros [w' Hrun]. apply import_data_ReturnSelf in Hrun
      as (d0 & r & d1 & types & maximum & [= <- <- <-] & _ & _ & Hmax).
    destruct (decide (Forall (λ r, length (heap w r) ≤ length (heap w data_0))
                        (row :: data_1))) as [|Hwide]; [done|].
    apply not_Forall_Exists in Hwide; [|apply _].
    unfold _find_maximum_length in Hmax.
    rewrite maximum_length_rows_overflow in Hmax; [done|].
    apply Exists_fmap. rewrite length_fmap.
    eapply Exists_impl; [exact Hwide|]. cbn. intros r ?. lia.
  - intros Hfit.
    destruct (import_data_fits_succeeds parses_as_float w data_0 row data_1 Hfit)
      as (types & maximum & Hrun & _). by eexists.
Qed.

(** X4: an import that raises on a row wider than the heading row has
    already replaced the headings, the rows and the width of the model, while
    the maximum lengths are still those the model had before: the model is
    left half updated. *)
Theorem import_data_raise_half_updated (parses_as_float : string → bool)
    (w : world) (data_0 : loc) (rows : list loc) (row : loc) :
  row ∈ rows →
  length (heap w data_0) < length (heap w row) →
  ∃ w', import_data parses_as_float (data_0 :: rows) w = (Raise IndexError, w')
    ∧ headings (self w') = data_0
    ∧ data (self w') = Flat rows
    ∧ width (self w') = length (heap w data_0)
    ∧ maximum_lengths (self w') = maximum_lengths (self w)
    ∧ heap w' = heap w.
Proof.
  intros Hin Hwide. destruct rows as [|r rows]; [by apply elem_of_nil in Hin|].
  rewrite import_data_run. unfold _find_column_types.
  destruct (column_types_rows_outcome parses_as_float (heap w <$> r :: rows)
              (replicate (length (heap w data_0)) Cliquetis.NUMBER)
              (replicate (length (heap w data_0)) Cliquetis.STRING))
    as [(types & -> & _)| ->]; [|by eexists].
  unfold _find_maximum_length. rewrite maximum_length_rows_overflow; [by eexists|].
  apply Exists_exists. exists (heap w row). split.
  - apply list_elem_of_fmap. by exists row.
  - by rewrite length_fmap.
Qed.

Lemma import_data_raise_half_updated_witness :
  ∃ w', import_data sample_float [0; 1; 2; 3] sample_world = (Raise IndexError, w')
    ∧ headings (self w') = 0
    ∧ data (self w') = Flat [1; 2; 3]
    ∧ width (self w') = length (heap sample_world 0)
    ∧ maximum_lengths (self w') = maximum_lengths (self sample_world)
    ∧ heap w' = heap sample_world.
Proof.
  apply (import_data_raise_half_updated sample_float sample_world 0 [1; 2; 3] 3).
  - repeat constructor.
  - simpl. lia.
Defined.

(** ** [TabularData.group_by]: errors, indices, what it leaves behind *)

Lemma group_by_rows_app (column : Z) (groups : list (string * list loc))
    (before after : list loc) (w : world) :
  group_by_rows column groups (before ++ after) w =
    (groups' ← group_by_rows column groups before;
     group_by_rows column groups' after) w.
Proof.
  revert groups w. induction before as [|row before IH]; intros groups w.
  { by rewrite M_bind_run. }
  cbn [app group_by_rows]. rewrite !M_bind_run.
  destruct (group_by_row column groups row w) as [[groups1|e] w1]; [|done].
  by rewrite IH, M_bind_run.
Qed.

Lemma py_index_None (len n : nat) : len ≤ n → py_index len (Z.of_nat n) = None.
Proof.
  intros Hle. unfold py_index.
  destruct (Z.leb_spec 0 (Z.of_nat n)); [|lia].
  by destruct (Z.ltb_spec (Z.of_nat n) (Z.of_nat len)); [lia|].
Qed.

(** The part of [group_by] after the loop over the rows. *)
Lemma group_by_after_loop (column : Z) (w : world) (rows : list loc) :
  data (self w) = Flat rows →
  group_by column w =
    match group_by_rows column [] rows w with
    | (Raise e, w') => (Raise e, w')
    | (Ok groups, w') =>
        (heading_cells' ← lift (py_del (heap w' (headings (self w))) column);
         assign (headings (self w)) heading_cells';;
         set_data (Grouped groups);;
         maximum ← lift (py_del (maximum_lengths (self w)) column);
         set_maximum_lengths maximum;;
         types ← lift (py_del (column_types (self w)) column);
         set_column_types types;;
         mret ReturnSelf) w'
    end.
Proof.
  intros Hdata. unfold group_by. rewrite M_bind_run, get_self_run, Hdata.
  rewrite M_bind_run.
  destruct (group_by_rows column [] rows w) as [[groups|e] w']; [|done].
  by rewrite M_bind_run, deref_run.
Qed.

(** X5: when the rows up to some row have the column and that row does not,
    [group_by] raises [IndexError] at that row: the rows before it have
    already lost their cell, every other list object and the fields of the
    model are as before. *)
Theorem group_by_short_row_raises (w : world) (before after : list loc)
    (short : loc) (column : nat) :
  data (self w) = Flat (before ++ short :: after) →
  NoDup (before ++ [short]) →
  (∀ row, row ∈ before → column < length (heap w row)) →
  length (heap w short) ≤ column →
  ∃ w', group_by (Z.of_nat column) w = (Raise IndexError, w')
    ∧ self w' = self w
    ∧ (∀ row, row ∈ before → heap w' row = delete column (heap w row))
    ∧ (∀ row, row ∉ before → heap w' row = heap w row).
Proof.
  intros Hdata (Hbefore & Hdisjoint & _)%NoDup_app Hhave Hlacks.
  assert (short ∉ before) as Hshort.
  { intros Hin. apply (Hdisjoint _ Hin). constructor. }
  rewrite (group_by_after_loop _ _ _ Hdata), group_by_rows_app, M_bind_run.
  destruct (group_by_rows_run column (cell w column) before [] w Hbefore)
    as (w' & -> & Hself & _ & Hheap).
  { intros r Hr. unfold cell.
    by destruct (lookup_lt_is_Some_2 (heap w r) column (Hhave r Hr)) as [name ->]. }
  exists w'. split.
  - cbn [group_by_rows]. rewrite M_bind_run. unfold group_by_row.
    rewrite M_bind_run, deref_run, M_bind_run, lift_run.
    unfold py_getitem. rewrite Hheap, decide_False by done.
    by rewrite py_index_None.
  - split; [done|]. split; intros r Hr; rewrite Hheap.
    + by rewrite decide_True.
    + by rewrite decide_False.
Qed.

Lemma group_by_short_row_raises_witness :
  ∃ w', group_by (Z.of_nat 2)
          (mkWorld (heap sample_world) 4 (mkTabularData 0 (Flat [3; 1; 2]) 2 [] []))
        = (Raise IndexError, w')
    ∧ self w' = mkTabularData 0 (Flat [3; 1; 2]) 2 [] []
    ∧ (∀ row, row ∈ [3] → heap w' row = delete 2 (heap sample_world row))
    ∧ (∀ row, row ∉ [3] → heap w' row = heap sample_world row).
Proof.
  apply (group_by_short_row_raises
           (mkWorld (heap sample_world) 4 (mkTabularData 0 (Flat [3; 1; 2]) 2 [] []))
           [3] [2] 1 2).
  - reflexivity.
  - by apply (bool_decide_unpack _).
  - intros row ->%list_elem_of_singleton. vm_compute. lia.
  - vm_compute. lia.
Defined.

Lemma group_by_grouped_raises (column : Z) (w : world) (name : string)
    (members : list loc) (groups : list (string * list loc)) :
  data (self w) = Grouped ((name, members) :: groups) →
  ∃ e, group_by column w = (Raise e, w) ∧ (e = TypeError ∨ e = IndexError).
Proof.
  intros Hdata. unfold group_by. rewrite M_bind_run, get_self_run. cbv beta iota.
  rewrite Hdata, M_bind_run.
  destruct (py_index (String.length name) column); eexists;
    rewrite raise_run; split; auto.
Qed.

(** X6: in a grouped model the rows of [self.data] are the group names, so a
    second [group_by] cannot work: after a [group_by] that returned, any
    further [group_by] raises [TypeError] or [IndexError] and changes
    nothing. *)
Theorem group_by_twice_raises (parses_as_float : string → bool) (rows : list loc)
    (w w0 : world) (column : nat) (column' : Z) :
  NoDup rows →
  import_data parses_as_float rows w = (Ok ReturnSelf, w0) →
  column < width (self w0) →
  (∀ row, row ∈ tail rows → column < length (heap w0 row)) →
  ∃ w1 e,
    group_by (Z.of_nat column) w0 = (Ok ReturnSelf, w1)
    ∧ group_by column' w1 = (Raise e, w1)
    ∧ (e = TypeError ∨ e = IndexError).
Proof.
  intros Hnodup Himport Hcolumn Hrows.
  destruct (group_by_run _ _ _ _ _ Hnodup Himport Hcolumn Hrows)
    as (w1 & Hrun & _ & Hdata & _).
  apply import_data_ReturnSelf in Himport as (d0 & r & d1 & _ & _ & -> & _).
  exists w1. cbn [tail] in Hdata.
  pose proof (grouping_keys_first_seen (cell w0 column) (r :: d1)) as Hkeys.
  destruct (grouping (cell w0 column) (r :: d1) []) as [|[name members] groups];
    [done|].
  destruct (group_by_grouped_raises column' w1 name members groups Hdata)
    as (e & Hraise & He).
  by exists e.
Qed.

Lemma group_by_twice_raises_witness :
  ∃ w1 e,
    group_by (Z.of_nat 0) (import_data sample_float [0; 1; 2] sample_world).2
      = (Ok ReturnSelf, w1)
    ∧ group_by 0%Z w1 = (Raise e, w1)
    ∧ (e = TypeError ∨ e = IndexError).
Proof.
  apply (group_by_twice_raises sample_float [0; 1; 2] sample_world
           (import_data sample_float [0; 1; 2] sample_world).2 0 0%Z).
  - by apply (bool_decide_unpack _).
  - reflexivity.
  - vm_compute. lia.
  - intros row Hin. cbn [tail] in Hin.
    repeat (apply elem_of_cons in Hin as [->|Hin]; [vm_compute; lia|]).
    by apply elem_of_nil in Hin.
Defined.

Lemma group_by_row_frame (column : Z) (groups : list (string * list loc))
    (row : loc) (w w' : world) (outcome : result (list (string * list loc))) :
  group_by_row column groups row w = (outcome, w') →
  self w' = self w ∧ next_loc w' = next_loc w
  ∧ ∀ r, r ≠ row → heap w' r = heap w r.
Proof.
  unfold group_by_row. run_M.
  destruct (py_getitem (heap w row) column) as [name|e]; run_M;
    [|by intros [= _ <-]].
  destruct (py_del (heap w row) column) as [cells'|e]; run_M;
    [|by intros [= _ <-]].
  destruct (dict_get name groups); run_M; intros [= _ <-]; cbn;
    (repeat split; [done..|]); intros r Hr; by rewrite fn_lookup_insert_ne.
Qed.

Lemma group_by_rows_frame (column : Z) (rows : list loc)
    (groups : list (string * list loc)) (w w' : world)
    (outcome : result (list (string * list loc))) :
  group_by_rows column groups rows w = (outcome, w') →
  self w' = self w ∧ next_loc w' = next_loc w
  ∧ ∀ r, r ∉ rows → heap w' r = heap w r.
Proof.
  revert groups w. induction rows as [|row rows IH]; intros groups w.
  { cbn. by intros [= _ <-]. }
  cbn [group_by_rows]. rewrite M_bind_run.
  destruct (group_by_row column groups row w) as [[groups1|e] w1] eqn:Hrow;
    apply group_by_row_frame in Hrow as (Hself & Hnext & Hheap).
  - intros (Hself' & Hnext' & Hheap')%IH. repeat split; [congruence..|].
    intros r Hr. apply not_elem_of_cons in Hr as [Hne Hr].
    by rewrite Hheap', Hheap.
  - intros [= _ <-]. repeat split; [done..|].
    intros r Hr. apply not_elem_of_cons in Hr as [Hne Hr]. by apply Hheap.
Qed.

Lemma group_by_row_index_ext (c1 c2 : Z) (groups : list (string * list loc))
    (row : loc) (w : world) :
  py_index (length (heap w row)) c1 = py_index (length (heap w row)) c2 →
  group_by_row c1 groups row w = group_by_row c2 groups row w.
Proof.
  intros Hindex. unfold group_by_row. run_M.
  unfold py_getitem, py_del. by rewrite Hindex.
Qed.

Lemma group_by_rows_index_ext (c1 c2 : Z) (rows : list loc)
    (groups : list (string * list loc)) (w : world) :
  NoDup rows →
  (∀ row, row ∈ rows →
     py_index (length (heap w row)) c1 = py_index (length (heap w row)) c2) →
  group_by_rows c1 groups rows w = group_by_rows c2 groups rows w.
Proof.
  revert groups w. induction rows as [|row rows IH]; intros groups w Hnodup Hindex;
    [done|].
  apply NoDup_cons in Hnodup as [Hfresh Hnodup].
  cbn [group_by_rows]. rewrite !M_bind_run.
  rewrite (group_by_row_index_ext c1 c2) by (apply Hindex; constructor).
  destruct (group_by_row c2 groups row w) as [[groups1|e] w1] eqn:Hrow; [|done].
  apply group_by_row_frame in Hrow as (_ & _ & Hheap).
  apply IH; [done|]. intros r Hr.
  rewrite Hheap by (by intros ->). apply Hindex. by constructor.
Qed.

Lemma py_index_negative (len k : nat) :
  1 ≤ k ≤ len → py_index len (- Z.of_nat k) = py_index len (Z.of_nat (len - k)).
Proof.
  intros Hk. rewrite (py_index_nat len (len - k)) by lia. unfold py_index.
  destruct (Z.leb_spec 0 (- Z.of_nat k)); [lia|].
  destruct (Z.leb_spec 0 (- Z.of_nat k + Z.of_nat len)); [|lia].
  f_equal. lia.
Qed.

(** X7: a negative column counts from the end, as Python indices do: on a
    table all of whose rows have as many cells as there are headings,
    [group_by(-k)] does what [group_by(n - k)] does, [n] being the number of
    columns. *)
Theorem group_by_negative_index (w : world) (rows : list loc) (n k : nat) :
  data (self w) = Flat rows →
  NoDup (headings (self w) :: rows) →
  (∀ row, row ∈ rows → length (heap w row) = n) →
  length (heap w (headings (self w))) = n →
  length (maximum_lengths (self w)) = n →
  length (column_types (self w)) = n →
  1 ≤ k ≤ n →
  group_by (- Z.of_nat k) w = group_by (Z.of_nat (n - k)) w.
Proof.
  intros Hdata [Hheading Hnodup]%NoDup_cons Hrows Hlen_h Hlen_m Hlen_t Hk.
  rewrite !(group_by_after_loop _ _ _ Hdata).
  rewrite (group_by_rows_index_ext (- Z.of_nat k) (Z.of_nat (n - k))); [|done|].
  - destruct (group_by_rows _ _ _ _) as [[groups|e] w'] eqn:Hloop; [|done].
    apply group_by_rows_frame in Hloop as (_ & _ & Hheap).
    rewrite Hheap by done. unfold py_del.
    by rewrite Hlen_h, Hlen_m, Hlen_t, !py_index_negative.
  - intros row Hrow. rewrite (Hrows row Hrow). by apply py_index_negative.
Qed.

Lemma group_by_negative_index_witness :
  group_by (- Z.of_nat 1) (import_data sample_float [0; 1; 2] sample_world).2
  = group_by (Z.of_nat (2 - 1)) (import_data sample_float [0; 1; 2] sample_world).2.
Proof.
  apply (group_by_negative_index (import_data sample_float [0; 1; 2] sample_world).2
           [1; 2] 2 1).
  - reflexivity.
  - by apply (bool_decide_unpack _).
  - intros row Hin.
    repeat (apply elem_of_cons in Hin as [->|Hin]; [reflexivity|]).
    by apply elem_of_nil in Hin.
  - reflexivity.
  - reflexivity.
  - reflexivity.
  - lia.
Defined.

Lemma group_by_Ok_width (column : Z) (w w1 : world) (r : returned) :
  group_by column w = (Ok r, w1) → width (self w1) = width (self w).
Proof.
  destruct (data (self w)) as [rows|[|[name members] groups]] eqn:Hdata.
  - rewrite (group_by_after_loop _ _ _ Hdata).
    destruct (group_by_rows column [] rows w) as [[groups|e] w'] eqn:Hloop; [|done].
    apply group_by_rows_frame in Hloop as (Hself & _ & _).
    run_M. destruct (py_del (heap w' _) column); run_M; [|done].
    destruct (py_del (maximum_lengths _) column); run_M; [|done].
    destruct (py_del (column_types _) column); run_M; [|done].
    intros [= _ <-]. cbn. by rewrite Hself.
  - unfold group_by. rewrite M_bind_run, get_self_run. cbv beta iota.
    rewrite Hdata. run_M.
    destruct (py_del (heap w _) column); run_M; [|done].
    destruct (py_del (maximum_lengths _) column); run_M; [|done].
    destruct (py_del (column_types _) column); run_M; [|done].
    by intros [= _ <-].
  - destruct (group_by_grouped_raises column w name members groups Hdata)
      as (e & -> & _). done.
Qed.

(** X8: [group_by] does not update [self.width]: after a [group_by] that
    returned, the width is still the number of columns of the import, one
    more than the number of headings left; and [has_tree], false after the
    import, is true. *)
Theorem group_by_keeps_width (parses_as_float : string → bool) (rows : list loc)
    (w w0 : world) (column : nat) :
  NoDup rows →
  import_data parses_as_float rows w = (Ok ReturnSelf, w0) →
  column < width (self w0) →
  (∀ row, row ∈ tail rows → column < length (heap w0 row)) →
  ∃ w1,
    group_by (Z.of_nat column) w0 = (Ok ReturnSelf, w1)
    ∧ width (self w1) = width (self w0)
    ∧ width (self w1) = S (length (heap w1 (headings (self w1))))
    ∧ has_tree w0 = (Ok false, w0)
    ∧ has_tree w1 = (Ok true, w1).
Proof.
  intros Hnodup Himport Hcolumn Hrows.
  destruct (group_by_run _ _ _ _ _ Hnodup Himport Hcolumn Hrows)
    as (w1 & Hrun & Hheadings & Hdata & _ & _ & Hheap & _ & Hwidth & _).
  exists w1. split; [done|].
  pose proof (group_by_Ok_width _ _ _ _ Hrun) as Hwidth1.
  split; [done|]. split.
  - rewrite Hheadings, Hheap, Hwidth1, Hwidth.
    rewrite length_delete by (apply lookup_lt_is_Some_2; lia). lia.
  - apply import_data_ReturnSelf in Himport as (d0 & r & d1 & ? & ? & _ & -> & _).
    unfold has_tree. rewrite !M_bind_run, !get_self_run. cbv beta iota.
    by rewrite Hdata.
Qed.

Lemma group_by_keeps_width_witness :
  ∃ w1,
    group_by (Z.of_nat 0) (import_data sample_float [0; 1; 2] sample_world).2
      = (Ok ReturnSelf, w1)
    ∧ width (self w1) = width (self (import_data sample_float [0; 1; 2] sample_world).2)
    ∧ width (self w1) = S (length (heap w1 (headings (self w1))))
    ∧ has_tree (import_data sample_float [0; 1; 2] sample_world).2
      = (Ok false, (import_data sample_float [0; 1; 2] sample_world).2)
    ∧ has_tree w1 = (Ok true, w1).
Proof.
  apply (group_by_keeps_width sample_float [0; 1; 2] sample_world
           (import_data sample_float [0; 1; 2] sample_world).2 0).
  - by apply (bool_decide_unpack _).
  - reflexivity.
  - vm_compute. lia.
  - intros row Hin. cbn [tail] in Hin.
    repeat (apply elem_of_cons in Hin as [->|Hin]; [vm_compute; lia|]).
    by apply elem_of_nil in Hin.
Defined.

(** ** [Action.expand] on text without tokens *)

Lemma prefix_true_append (old s : string) :
  String.prefix old s = true → ∃ after, s = old +:+ after.
Proof.
  revert s. induction old as [|c old IH]; intros s Hprefix.
  { by exists s. }
  destruct s as [|x s]; [done|]. cbn [String.prefix] in Hprefix.
  destruct (ascii_dec c x) as [->|]; [|done].
  destruct (IH s Hprefix) as [after ->]. by exists after.
Qed.

Lemma append_empty_r (s : string) : s +:+ EmptyString = s.
Proof.
  induction s as [|c s IH]; [done|].
  change (String c s +:+ EmptyString) with (String c (s +:+ EmptyString)).
  by rewrite IH.
Qed.

Lemma replace_scan_no_occurrence (old new s : string) :
  ¬ occurs old s → PyStr.replace_scan old new 0 s = s.
Proof.
  induction s as [|c s IH]; intros Hnone; [done|].
  cbn [PyStr.replace_scan].
  destruct (String.prefix old (String c s)) eqn:Hprefix.
  - destruct Hnone. apply prefix_true_append in Hprefix as [after ->].
    by exists EmptyString, after.
  - f_equal. apply IH. intros (before & after & ->). apply Hnone.
    by exists (String c before), after.
Qed.

Lemma replace_no_occurrence (name new s : string) :
  ¬ occurs (token name) s → PyStr.replace s (token name) new = s.
Proof. intros Hnone. unfold PyStr.replace, token. by apply replace_scan_no_occurrence. Qed.

Lemma expand_tokens_unchanged (values : list (string * pyval))
    (names : list string) (argument : string) :
  Forall (λ binding, is_text binding.2) values →
  names ⊆ dict_keys values →
  (∀ name, name ∈ names → ¬ occurs (token name) argument) →
  expand_tokens values names argument = Ok argument.
Proof.
  intros Htext. induction names as [|name names IH]; intros Hsub Hnone; [done|].
  cbn [expand_tokens].
  destruct (proj2 (dict_get_is_Some values name)) as [v Hv].
  { apply Hsub. constructor. }
  assert (dict_getitem values name = Ok v) as ->.
  { unfold dict_getitem. by rewrite Hv. }
  run_result. apply dict_get_elem_of in Hv.
  pose proof (proj1 (Forall_forall _ _) Htext _ Hv) as Hv'. cbn in Hv'.
  destruct Hv' as [->|[s ->]]; cbn [is_None str_replace]; run_result;
    rewrite replace_no_occurrence by (apply Hnone; constructor);
    apply IH; try (intros k Hk; apply Hsub; by constructor);
    intros k Hk; apply Hnone; by constructor.
Qed.

(** X9: templates in which no token of a bound name occurs come out of
    [expand] as they are, and an argument list made of such templates is the
    argument vector of [run], unchanged, the bound values being strings or
    [None]. *)
Theorem expand_without_tokens (values : list (string * pyval))
    (arguments : list string) :
  Forall (λ binding, is_text binding.2) values →
  (∀ argument name, argument ∈ arguments → name ∈ dict_keys values →
                    ¬ occurs (token name) argument) →
  (∀ argument, argument ∈ arguments → expand values argument = Ok (PStr argument))
  ∧ expanded values arguments = Ok (PStr <$> arguments).
Proof.
  intros Htext Hnone.
  assert (∀ argument, argument ∈ arguments →
                      expand values argument = Ok (PStr argument)) as Hexpand.
  { intros argument Hin. unfold expand. rewrite expand_whole_other.
    - rewrite expand_tokens_unchanged; [done..|]. intros name. by apply Hnone.
    - intros name Hname ->. apply (Hnone _ name Hin Hname).
      exists EmptyString, EmptyString. by rewrite append_empty_r. }
  split; [done|].
  induction arguments as [|argument arguments IH]; [done|].
  cbn [expanded]. rewrite Hexpand by constructor. run_result.
  rewrite IH; [done| |].
  - intros a name Ha. apply Hnone. by constructor.
  - intros a Ha. apply Hexpand. by constructor.
Qed.

Lemma expand_without_tokens_witness :
  (∀ argument, argument ∈ ["ls"; "-l"; "{other}"] →
     expand [("flag", PNone); ("name", PStr "bob")] argument = Ok (PStr argument))
  ∧ expanded [("flag", PNone); ("name", PStr "bob")] ["ls"; "-l"; "{other}"]
    = Ok (PStr <$> ["ls"; "-l"; "{other}"]).
Proof.
  apply (expand_without_tokens [("flag", PNone); ("name", PStr "bob")]
           ["ls"; "-l"; "{other}"]).
  - apply Forall_cons. split; [by left|].
    apply Forall_cons. split; [right; by eexists|]. apply Forall_nil_2.
  - intros argument name Hargument Hname (before & after & Heq).
    cbn in Hname.
    repeat (apply elem_of_cons in Hargument as [->|Hargument]);
      [..|by apply elem_of_nil in Hargument];
      repeat (apply elem_of_cons in Hname as [->|Hname]);
      try (by apply elem_of_nil in Hname);
      repeat (destruct before as [|? before]; try discriminate Heq;
              injection Heq as ? Heq; subst).
Defined.

(** ** [Action.run] *)

(** X10: with a ['viewer'] that is configured and is not ['table'], [run]
    leaves the model alone; for ['json'] it returns what [json.loads] makes of
    the captured output, or raises what [json.loads] raises; for anything
    else it returns the captured bytes as they are. *)
Theorem run_json_or_raw (parses_as_float : string → bool)
    (decode_utf8 : bytes → result string) (splitlines : string → list string)
    (split : string → pyval → result (list string)) (loads : bytes → result pyval)
    (subprocess_run : list pyval → result bytes)
    (arguments : list string) (values configuration : list (string * pyval))
    (argv : list pyval) (stdout : bytes) (viewer : pyval) (w : world) :
  expanded values arguments = Ok argv →
  subprocess_run argv = Ok stdout →
  dict_get "viewer" configuration = Some viewer →
  eq_str viewer "table" = false →
  run parses_as_float decode_utf8 splitlines split loads subprocess_run
    arguments values configuration w
  = if eq_str viewer "json"
    then match loads stdout with
         | Ok v => (Ok (RunJson v), w)
         | Raise e => (Raise e, w)
         end
    else (Ok (RunRaw stdout), w).
Proof.
  intros Hargv Hrun Hviewer Htable. unfold run.
  rewrite Hargv. run_M. rewrite Hrun. run_M.
  unfold dict_getitem. rewrite Hviewer. run_M. rewrite Htable. run_M.
  destruct (eq_str viewer "json"); run_M; [|done].
  by destruct (loads stdout).
Qed.

Lemma run_json_or_raw_witness :
  run sample_float (λ _, Raise UnicodeDecodeError) (λ _, [])
    (λ _ _, Raise ValueError) (λ _, Raise JSONDecodeError) (λ _, Ok [])
    ["ls"] [] [("viewer", PStr "json")] sample_world
  = if eq_str (PStr "json") "json"
    then match (λ _ : bytes, @Raise pyval JSONDecodeError) [] with
         | Ok v => (Ok (RunJson v), sample_world)
         | Raise e => (Raise e, sample_world)
         end
    else (Ok (RunRaw []), sample_world).
Proof.
  apply (run_json_or_raw sample_float (λ _, Raise UnicodeDecodeError) (λ _, [])
           (λ _ _, Raise ValueError) (λ _, Raise JSONDecodeError) (λ _, Ok [])
           ["ls"] [] [("viewer", PStr "json")] [PStr "ls"] [] (PStr "json")
           sample_world); reflexivity.
Defined.

Lemma dict_getitem_default {V : Type} (d : list (string * V)) (key : string) (v : V) :
  (if dict_in key d then dict_getitem d key else Ok v) = Ok (Cliquetis.default d key v).
Proof.
  unfold Cliquetis.default, dict_in, dict_getitem.
  destruct (dict_get key d) as [v'|]; [by rewrite bool_decide_eq_true_2|].
  rewrite bool_decide_eq_false_2; [done|]. by intros [? ?].
Qed.

Lemma import_data_few (parses_as_float : string → bool) (rows : list loc) (w : world) :
  length rows < 2 → import_data parses_as_float rows w = (Ok ReturnNone, w).
Proof.
  intros Hlen. unfold import_data.
  by destruct (Nat.ltb_spec (length rows) 2); [|lia].
Qed.

Lemma py_index_empty (i : Z) : py_index 0 i = None.
Proof.
  unfold py_index. destruct (Z.leb_spec 0 i).
  - by destruct (Z.ltb_spec i (Z.of_nat 0)); [lia|].
  - by destruct (Z.leb_spec 0 (i + Z.of_nat 0)); [lia|].
Qed.

Lemma group_by_empty_model (column : Z) (w : world) :
  data (self w) = Flat [] →
  heap w (headings (self w)) = [] →
  group_by column w = (Raise IndexError, w).
Proof.
  intros Hdata Hheadings. rewrite (group_by_after_loop _ _ _ Hdata).
  cbn [group_by_rows]. rewrite mret_run, M_bind_run, lift_run.
  unfold py_del. by rewrite Hheadings, py_index_empty.
Qed.

(** X11: with the ['table'] viewer, a command that prints fewer than two
    lines gives an empty table. Without a group-by column [run] returns it;
    with a group-by column [run] raises, [IndexError] for an index (there is
    no heading to delete) and [TypeError] for any other value. *)
Theorem run_table_few_lines (parses_as_float : string → bool)
    (decode_utf8 : bytes → result string) (splitlines : string → list string)
    (split : string → pyval → result (list string)) (loads : bytes → result pyval)
    (subprocess_run : list pyval → result bytes)
    (arguments : list string) (values configuration : list (string * pyval))
    (argv : list pyval) (stdout : bytes) (decoded : string)
    (cells : list (list string)) (w : world) :
  expanded values arguments = Ok argv →
  subprocess_run argv = Ok stdout →
  dict_get "viewer" configuration = Some (PStr "table") →
  decode_utf8 stdout = Ok decoded →
  mapM (λ row, split row (Cliquetis.default configuration "separator"
                            (PStr (String "009" EmptyString))))
    (splitlines decoded) = Ok cells →
  length cells < 2 →
  ∃ w',
    run parses_as_float decode_utf8 splitlines split loads subprocess_run
      arguments values configuration w
    = (match Cliquetis.default configuration "group-by" PNone with
       | PNone => Ok RunTable
       | PInt _ | PBool _ => Raise IndexError
       | _ => Raise TypeError
       end, w')
    ∧ data (self w') = Flat []
    ∧ heap w' (headings (self w')) = []
    ∧ width (self w') = 0
    ∧ column_types (self w') = []
    ∧ maximum_lengths (self w') = [].
Proof.
  intros Hargv Hrun Hviewer Hdecode Hsplit Hlen. unfold run.
  rewrite Hargv. run_M. rewrite Hrun. run_M.
  unfold dict_getitem at 1. rewrite Hviewer. run_M. cbn [eq_str].
  rewrite bool_decide_eq_true_2 by done.
  rewrite !dict_getitem_default. run_M. rewrite TabularData_init_run.
  set (w0 := mkWorld _ _ _).
  unfold import_raw_data. rewrite Hdecode. run_M. rewrite Hsplit. run_M.
  destruct (mapM_alloc_run cells w0) as (w' & -> & Hself & _ & _ & Hold).
  rewrite M_bind_run, import_data_few by (by rewrite length_seq).
  assert (data (self w') = Flat [] ∧ heap w' (headings (self w')) = []
          ∧ width (self w') = 0 ∧ column_types (self w') = []
          ∧ maximum_lengths (self w') = []) as Hempty.
  { rewrite Hself. subst w0. cbn [self data headings width column_types
      maximum_lengths]. repeat split.
    rewrite Hold by (cbn; lia). cbn. by rewrite fn_lookup_insert. }
  exists w'. split; [|done].
  destruct Hempty as (Hdata & Hheadings & _).
  destruct (Cliquetis.default configuration "group-by" PNone) as [|b|z|s|l|d];
    cbn [is_None group_by_value]; run_M; try done;
    by rewrite group_by_empty_model by done.
Qed.

Lemma run_table_few_lines_witness :
  ∃ w',
    run sample_float (λ _, Ok (String "a" EmptyString)) (λ s, [s])
      (λ s _, Ok [s]) (λ _, Raise JSONDecodeError) (λ _, Ok [])
      ["ls"] [] [("viewer", PStr "table"); ("group-by", PInt 0)] sample_world
    = (match Cliquetis.default [("viewer", PStr "table"); ("group-by", PInt 0)]
               "group-by" PNone with
       | PNone => Ok RunTable
       | PInt _ | PBool _ => Raise IndexError
       | _ => Raise TypeError
       end, w')
    ∧ data (self w') = Flat []
    ∧ heap w' (headings (self w')) = []
    ∧ width (self w') = 0
    ∧ column_types (self w') = []
    ∧ maximum_lengths (self w') = [].
Proof.
  apply (run_table_few_lines sample_float (λ _, Ok (String "a" EmptyString))
           (λ s, [s]) (λ s _, Ok [s]) (λ _, Raise JSONDecodeError) (λ _, Ok [])
           ["ls"] [] [("viewer", PStr "table"); ("group-by", PInt 0)]
           [PStr "ls"] [] (String "a" EmptyString) [[String "a" EmptyString]]
           sample_world); try reflexivity.
  simpl. lia.
Defined.

(** ** [TabularData.import_raw_data] *)

Lemma mapM_alloc_contents (rows : list (list string)) (w w' : world) (data : list loc) :
  mapM alloc rows w = (Ok data, w') →
  data = seq (next_loc w) (length rows) ∧ heap w' <$> data = rows ∧ self w' = self w.
Proof.
  destruct (mapM_alloc_run rows w) as (w'' & -> & Hself & _ & Hnew & _).
  intros [= <- <-]. split; [done|]. split; [|done].
  apply list_eq. intros i. rewrite list_lookup_fmap.
  destruct (rows !! i) as [cells|] eqn:Hcells.
  - rewrite lookup_seq_lt by (by eapply lookup_lt_Some). cbn.
    by rewrite (Hnew i cells Hcells).
  - by rewrite lookup_seq_ge by (by apply lookup_ge_None).
Qed.

Lemma filter_fmap_heap (heap : loc → list string) (P : list string → Prop)
    `{∀ r, Decision (P r)} (rows : list loc) :
  heap <$> filter (λ r, P (heap r)) rows = filter P (heap <$> rows).
Proof.
  induction rows as [|r rows IH]; [done|].
  cbn [fmap list_fmap]. rewrite !filter_cons.
  case_decide; cbn [fmap list_fmap]; by rewrite IH.
Qed.

(** X12: [import_raw_data] with a group-by column, on text that splits into
    a heading row and data rows which all have the column and are not wider
    than the heading row: it returns [self]; the heading row has lost the
    column; the groups are named by the cells of the column in the order of
    their first occurrence, and each group holds, in their order in the
    text, the rows with that cell, without the cell. *)
Theorem import_raw_data_groups (parses_as_float : string → bool)
    (decode_utf8 : bytes → result string) (splitlines : string → list string)
    (split : string → pyval → result (list string))
    (text : bytes) (separator : pyval) (column : nat) (decoded : string)
    (heading row : list string) (more : list (list string)) (w : world) :
  decode_utf8 text = Ok decoded →
  mapM (λ line, split line separator) (splitlines decoded)
    = Ok (heading :: row :: more) →
  Forall (λ r, column < length r ∧ length r ≤ length heading) (row :: more) →
  ∃ w1 groups,
    import_raw_data parses_as_float decode_utf8 splitlines split
      text separator (PInt (Z.of_nat column)) w = (Ok ReturnSelf, w1)
    ∧ heap w1 (headings (self w1)) = delete column heading
    ∧ data (self w1) = Grouped groups
    ∧ dict_keys groups
      = first_seen ((λ r, default EmptyString (r !! column)) <$> row :: more)
    ∧ ∀ name, name ∈ dict_keys groups →
        ∃ members, dict_get name groups = Some members
          ∧ heap w1 <$> members
            = delete column
              <$> filter (λ r, default EmptyString (r !! column) = name)
                    (row :: more).
Proof.
  intros Hdecode Hsplit Hrows.
  unfold import_raw_data. rewrite Hdecode. run_M. rewrite Hsplit. run_M.
  destruct (mapM alloc (heading :: row :: more) w) as [[data|e] wa] eqn:Halloc;
    [|destruct (mapM_alloc_run (heading :: row :: more) w) as (? & ? & _);
      congruence].
  apply mapM_alloc_contents in Halloc as (Hdata & Hcontents & _).
  cbn [length seq] in Hdata. set (n := next_loc w) in *.
  set (locs := seq (S (S n)) (length more)) in *. subst data.
  cbn [fmap list_fmap] in Hcontents.
  injection Hcontents as Hheading Hrow Hmore.
  assert (heap wa <$> S n :: locs = row :: more) as Hcells.
  { cbn [fmap list_fmap]. by rewrite Hrow, Hmore. }
  destruct (import_data_fits_succeeds parses_as_float wa n (S n) locs)
    as (types & maximum & Himport & _).
  { rewrite Hheading. apply (Forall_fmap (heap wa) (λ r, length r ≤ length heading)).
    rewrite Hcells. eapply Forall_impl; [exact Hrows|]. by intros r [_ ?]. }
  set (w0 := imported wa n (S n :: locs) types maximum) in *.
  assert (NoDup (n :: S n :: locs)) as Hnodup.
  { change (NoDup (seq n (S (S (length more))))). apply NoDup_seq. }
  assert (∀ r, r ∈ S n :: locs → column < length (heap wa r)) as Hhave.
  { apply Forall_forall. apply (Forall_fmap (heap wa) (λ r, column < length r)).
    rewrite Hcells. eapply Forall_impl; [exact Hrows|]. by intros r [? _]. }
  assert (column < length heading) as Hcolumn.
  { apply Forall_cons in Hrows as [[? ?] _]. lia. }
  destruct (group_by_run parses_as_float (n :: S n :: locs) wa w0 column Hnodup Himport)
    as (w1 & Hrun & Hheadings & Hgroups & _ & _ & Hheap & Hdeleted & _).
  { cbn. by rewrite Hheading. }
  { done. }
  exists w1, (grouping (cell w0 column) (S n :: locs) []).
  cbn [tail] in *. split.
  { rewrite M_bind_run, Himport. cbn [is_None group_by_value].
    rewrite M_bind_run, Hrun. by run_M. }
  split.
  { rewrite Hheadings, Hheap. cbn. by rewrite Hheading. }
  split; [done|].
  assert (cell w0 column = (λ r, default EmptyString (r !! column)) ∘ heap wa) as Hkey
    by done.
  rewrite grouping_keys_first_seen. split.
  { by rewrite Hkey, list_fmap_compose, Hcells. }
  intros name Hname. eexists. split.
  { rewrite grouping_get by (by rewrite grouping_keys_first_seen). done. }
  cbn [default app].
  rewrite <- Hcells, <- (filter_fmap_heap (heap wa)
    (λ r, default EmptyString (r !! column) = name)).
  rewrite <- list_fmap_compose. apply list_fmap_ext.
  intros i r Hr%list_elem_of_lookup_2. apply list_elem_of_filter in Hr as [_ Hr].
  cbn. by apply Hdeleted.
Qed.

Lemma import_raw_data_groups_witness :
  ∃ w1 groups,
    import_raw_data sample_float (λ _, Ok EmptyString) (λ _, ["k"; "a"; "b"])
      (λ line _, Ok [line; "1"]) [] (PStr ",") (PInt (Z.of_nat 0)) sample_world
      = (Ok ReturnSelf, w1)
    ∧ heap w1 (headings (self w1)) = delete 0 ["k"; "1"]
    ∧ data (self w1) = Grouped groups
    ∧ dict_keys groups
      = first_seen ((λ r, default EmptyString (r !! 0)) <$> ["a"; "1"] :: [["b"; "1"]])
    ∧ ∀ name, name ∈ dict_keys groups →
        ∃ members, dict_get name groups = Some members
          ∧ heap w1 <$> members
            = delete 0
              <$> filter (λ r, default EmptyString (r !! 0) = name)
                    (["a"; "1"] :: [["b"; "1"]]).
Proof.
  apply (import_raw_data_groups sample_float (λ _, Ok EmptyString)
           (λ _, ["k"; "a"; "b"]) (λ line _, Ok [line; "1"]) [] (PStr ",") 0
           EmptyString ["k"; "1"] ["a"; "1"] [["b"; "1"]] sample_world).
  - reflexivity.
  - reflexivity.
  - repeat constructor.
Defined.

(** ** [Application.create_action] *)

Lemma get_value_widget_value (w : widget) : get_value w = Ok (widget_value w).
Proof. by destruct w. Qed.

Lemma option_values_get (options : list (string * widget)) (keys : list string)
    (values0 : list (string * pyval)) :
  keys ⊆ dict_keys options →
  ∃ values, option_values options keys values0 = Ok values
    ∧ ∀ key, dict_get key values =
             if decide (key ∈ keys)
             then widget_value <$> dict_get key options
             else dict_get key values0.
Proof.
  revert values0. induction keys as [|key keys IH]; intros values0 Hsub.
  { exists values0. split; [done|]. intros key. rewrite decide_False; [done|].
    apply not_elem_of_nil. }
  cbn [option_values].
  destruct (proj2 (dict_get_is_Some options key)) as [option_widget Hwidget].
  { apply Hsub. constructor. }
  unfold dict_getitem. rewrite Hwidget. run_result.
  rewrite get_value_widget_value. run_result.
  destruct (IH (dict_set key (widget_value option_widget) values0))
    as (values & Hrun & Hget).
  { intros k Hk. apply Hsub. by constructor. }
  exists values. split; [done|]. intros k. rewrite Hget, dict_get_set.
  destruct (decide (k = key)) as [->|Hne].
  - rewrite (decide_True (P := key ∈ key :: keys)) by constructor.
    rewrite Hwidget. by case_decide.
  - destruct (decide (k ∈ keys)) as [Hin|Hnin].
    + rewrite decide_True; [done|]. by constructor.
    + rewrite decide_False; [done|]. by intros [?|?]%elem_of_cons.
Qed.

(** X13: [create_action] always builds an action, with the command as its
    argument templates. In the argument vector of that action a template that
    is the token of an option stands for what the widget of the option holds:
    the text of a text, file or list field, even when it is empty, and for a
    checkbox the value configured for its state, the argument being left out
    when that value is [None]. *)
Theorem create_action_argument (action_config : action_config) (key : string)
    (option_widget : widget) (before after : list string) :
  dict_get key (options action_config) = Some option_widget →
  ∃ action,
    create_action action_config = Ok action
    ∧ arguments action = command action_config
    ∧ configuration action = output action_config
    ∧ expand (values action) (token key) = Ok (widget_value option_widget)
    ∧ expanded (values action) (before ++ token key :: after) =
        (head ← expanded (values action) before;
         tail ← expanded (values action) after;
         Ok (head
             ++ match option_widget with
                | Entry text | Combobox text => [PStr text]
                | NullBooleanVar value onvalue offvalue =>
                    if is_None (if value then onvalue else offvalue) then []
                    else [if value then onvalue else offvalue]
                end
             ++ tail)).
Proof.
  intros Hwidget. unfold create_action.
  destruct (option_values_get (options action_config)
              (dict_keys (options action_config)) []) as (bound & -> & Hget);
    [done|].
  run_result. eexists. split; [done|]. cbn [arguments configuration values].
  assert (dict_get key bound = Some (widget_value option_widget)) as Hvalue.
  { rewrite Hget, decide_True, Hwidget; [done|].
    apply dict_get_is_Some. by rewrite Hwidget. }
  assert (expand bound (token key) = Ok (widget_value option_widget)) as Hexpand.
  { unfold expand. rewrite expand_whole_token.
    - unfold dict_getitem. by rewrite Hvalue.
    - apply dict_get_is_Some. by rewrite Hvalue. }
  repeat split; [done|].
  rewrite expanded_app. cbn [expanded]. rewrite Hexpand. run_result.
  destruct (expanded bound before) as [head|e]; [|done]. run_result.
  destruct (expanded bound after) as [tail|e]; [|done]. run_result.
  destruct option_widget as [text|text|value onvalue offvalue];
    cbn [widget_value is_None]; [done..|].
  by destruct (is_None (if value then onvalue else offvalue)).
Qed.

Lemma create_action_argument_witness :
  ∃ action,
    create_action sample_action_config = Ok action
    ∧ arguments action = command sample_action_config
    ∧ configuration action = output sample_action_config
    ∧ expand (values action) (token "all")
      = Ok (widget_value (NullBooleanVar false (PStr "-a") PNone))
    ∧ expanded (values action) (["ls"] ++ token "all" :: ["{dir}"]) =
        (head ← expanded (values action) ["ls"];
         tail ← expanded (values action) ["{dir}"];
         Ok (head
             ++ match NullBooleanVar false (PStr "-a") PNone with
                | Entry text | Combobox text => [PStr text]
                | NullBooleanVar value onvalue offvalue =>
                    if is_None (if value then onvalue else offvalue) then []
                    else [if value then onvalue else offvalue]
                end
             ++ tail)).
Proof.
  apply (create_action_argument sample_action_config "all"
           (NullBooleanVar false (PStr "-a") PNone) ["ls"] ["{dir}"]).
  reflexivity.
Defined.

(** The argument vector of the example: the flag of the checkbox is left
    out, the empty text stays as an empty argument. *)
Example create_action_sample_argv :
  (action ← create_action sample_action_config;
   expanded (values action) (arguments action))
  = Ok [PStr "ls"; PStr EmptyString].
Proof. reflexivity. Qed.

(** ** [TreeViewer.display_data]: the whole walk *)

Lemma pyval_nested_ind (P : pyval → Prop) :
  P PNone → (∀ b, P (PBool b)) → (∀ z, P (PInt z)) → (∀ s, P (PStr s)) →
  (∀ l, Forall P l → P (PList l)) →
  (∀ d, Forall (λ binding, P binding.2) d → P (PDict d)) →
  ∀ v, P v.
Proof.
  intros HNone HBool HInt HStr HList HDict.
  fix IH 1. intros [|b|z|s|l|d]; [done..| |].
  - apply HList. induction l as [|v l IHl]; constructor; [apply IH|exact IHl].
  - apply HDict. induction d as [|[k v] d IHd]; constructor; [apply IH|exact IHd].
Qed.




Section DisplayWalk.

Variable collapsed : bool.
Variable key_values : option (list string).
Hypothesis key_values_not_empty : key_values ≠ Some [].






End DisplayWalk.



Section DisplayCount.

Variable collapsed : bool.

Let counts (v : pyval) : Prop :=
  ∀ tree parent, ∃ appended,
    display_data collapsed None v tree parent = Ok (tree ++ appended)
    ∧ length appended
      = if isinstance_dict v || isinstance_list v then entries v else 1.

Lemma has_key_values_None (v : pyval) : has_key_values None v = false.
Proof. by destruct v. Qed.

Lemma entries_scalar (v : pyval) :
  isinstance_dict v || isinstance_list v = false → entries v = 0.
Proof. by destruct v. Qed.

Lemma count_dict (d : list (string * pyval)) :
  Forall (λ binding, counts binding.2) d →
  ∀ tree parent, ∃ appended,
    display_dict collapsed (display_data collapsed None) parent d tree
    = Ok (tree ++ appended)
    ∧ length appended = entries (PDict d).
Proof.
  induction 1 as [|[key value] d Hvalue _ IH]; intros tree parent.
  { exists []. by rewrite app_nil_r. }
  unfold counts in Hvalue. cbn [snd] in Hvalue.
  cbn [display_dict entries fmap list_fmap list_sum snd].
  destruct (isinstance_dict value || isinstance_list value) eqn:Hkind.
  - cbn [tree_insert].
    destruct (Hvalue (tree ++ [mkNode parent (Some (PStr key))
                                  (Some [items_label value]) (Some (negb collapsed))])
                (Item (length tree))) as (below & -> & Hbelow).
    run_result.
    destruct (IH ((tree ++ [mkNode parent (Some (PStr key))
                              (Some [items_label value]) (Some (negb collapsed))])
                  ++ below) parent) as (later & -> & Hlater).
    eexists ((_ :: below) ++ later). split.
    { by rewrite <- !app_assoc. }
    rewrite length_app. cbn [length entries fmap list_fmap snd] in *.
    by rewrite Hbelow, Hlater.
  - cbn [tree_insert snd].
    destruct (IH (tree ++ [mkNode parent (Some (PStr key)) (Some [value]) None])
                parent) as (later & -> & Hlater).
    eexists ([_] ++ later). split; [by rewrite <- app_assoc|].
    rewrite length_app, (entries_scalar value Hkind).
    cbn [length entries fmap list_fmap snd] in *. by rewrite Hlater.
Qed.

Lemma count_list (rows : list pyval) :
  Forall counts rows →
  ∀ index tree parent, ∃ appended,
    display_list collapsed None (display_data collapsed None) parent rows index tree
    = Ok (tree ++ appended)
    ∧ length appended = entries (PList rows).
Proof.
  induction 1 as [|row rows Hrow _ IH]; intros index tree parent.
  { exists []. by rewrite app_nil_r. }
  cbn [display_list entries fmap list_fmap list_sum]. rewrite has_key_values_None.
  destruct (isinstance_dict row || isinstance_list row) eqn:Hkind.
  - cbn [tree_insert].
    destruct (Hrow (tree ++ [mkNode parent (Some (PInt (Z.of_nat index))) None
                               (Some (negb collapsed))])
                (Item (length tree))) as (below & -> & Hbelow).
    run_result.
    destruct (IH (S index)
                ((tree ++ [mkNode parent (Some (PInt (Z.of_nat index))) None
                             (Some (negb collapsed))]) ++ below) parent)
      as (later & -> & Hlater).
    eexists ((_ :: below) ++ later). split.
    { by rewrite <- !app_assoc. }
    rewrite length_app. cbn [length entries fmap list_fmap snd] in *.
    by rewrite Hbelow, Hkind, Hlater.
  - cbn [tree_insert snd].
    destruct (IH (S index)
                (tree ++ [mkNode parent (Some (PInt (Z.of_nat index)))
                            (Some [row]) None]) parent)
      as (later & -> & Hlater).
    eexists ([_] ++ later). split; [by rewrite <- app_assoc|].
    rewrite length_app, (entries_scalar row Hkind).
    cbn [length entries fmap list_fmap snd] in *. by rewrite Hlater.
Qed.

Lemma count_all (v : pyval) : counts v.
Proof.
  induction v as [|b|z|s|l Hl|d Hd] using pyval_nested_ind;
    try (intros tree parent; by eexists [_]).
  - intros tree parent. by apply count_list.
  - intros tree parent. by apply count_dict.
Qed.

End DisplayCount.

(** X15: without a key-values list [display_data] appends one item for each
    key of each object and each element of each array of the value, at every
    depth, and a single item for a value that is neither an object nor an
    array. *)
Theorem display_data_count (collapsed : bool) (data : pyval) (tree : list node)
    (parent : iid) :
  ∃ appended,
    display_data collapsed None data tree parent = Ok (tree ++ appended)
    ∧ length appended
      = if isinstance_dict data || isinstance_list data then entries data else 1.
Proof. apply count_all. Qed.

Section DisplayEmptyKeyValues.

Variable collapsed : bool.

Let stops (v : pyval) : Prop :=
  ∀ tree parent, ∃ appended,
    display_data collapsed (Some []) v tree parent
    = if contains_dict v then Raise IndexError else Ok (tree ++ appended).

Lemma stops_list (rows : list pyval) :
  Forall stops rows →
  ∀ index tree parent, ∃ appended,
    display_list collapsed (Some []) (display_data collapsed (Some [])) parent
      rows index tree
    = if existsb contains_dict rows then Raise IndexError else Ok (tree ++ appended).
Proof.
  induction 1 as [|row rows Hrow _ IH]; intros index tree parent.
  { exists []. by rewrite app_nil_r. }
  unfold stops in Hrow. cbn [display_list existsb].
  destruct row as [|b|z|s|l|d]; cbn [has_key_values forallb isinstance_dict
    isinstance_list orb contains_dict tree_insert snd] in *.
  1-4: (match goal with
        | |- context [display_list _ _ _ _ _ _ ?tree1] =>
            destruct (IH (S index) tree1 parent) as (later & ->)
        end;
        eexists ([_] ++ later); destruct (existsb contains_dict rows);
        [done|by rewrite <- app_assoc]).
  - destruct (Hrow (tree ++ [mkNode parent (Some (PInt (Z.of_nat index))) None
                               (Some (negb collapsed))])
                (Item (length tree))) as (below & -> ).
    destruct (existsb contains_dict l); [by exists []|]. run_result.
    destruct (IH (S index)
                ((tree ++ [mkNode parent (Some (PInt (Z.of_nat index))) None
                             (Some (negb collapsed))]) ++ below) parent)
      as (later & ->).
    eexists ((_ :: below) ++ later). destruct (existsb contains_dict rows); [done|].
    by rewrite <- !app_assoc.
  - destruct (Hrow tree parent) as (below & ->). by exists [].
Qed.

Lemma stops_all (v : pyval) : stops v.
Proof.
  induction v as [|b|z|s|l Hl|d Hd] using pyval_nested_ind;
    intros tree parent;
    [by eexists [_]..|by apply stops_list|by exists []].
Qed.

End DisplayEmptyKeyValues.

(** X16: an empty key-values list matches every object, and [display_data]
    then reads a first name that is not there: with that list it raises
    [IndexError] exactly on the values that are an object or hold one inside
    arrays, and returns on the others. *)
Theorem display_data_empty_list_raises (collapsed : bool) (data : pyval)
    (tree : list node) (parent : iid) :
  ∃ appended,
    display_data collapsed (Some []) data tree parent
    = if contains_dict data then Raise IndexError else Ok (tree ++ appended).
Proof. apply stops_all. Qed.

(** ** [TableViewer.insert_data] *)






(** The calls for the sample table, grouped by its first column. *)
Example insert_data_sample :
  ((import_data sample_float [0; 1; 2];; group_by 0%Z;; insert_data) sample_world).1
  = Ok [Heading "size" "size"; Column "size" 40 E;
        InsertGroup "a" "a"; InsertRow "a" ["10"];
        InsertGroup "b" "b"; InsertRow "b" [" "]].
Proof. reflexivity. Qed.
